(** * The Saga of Eldoria: the combat engine of [the_game.py]

    A shallow embedding of the combat core of the game (classes
    [Character], [Item] and [Combat]) and the properties of it that the
    specification states.

    Conventions of the embedding.
    - Python integers are unbounded: every stat and hit-point value is a [Z];
      [//] is floor division ([Z.div]), [int(x)] of an integer is [x].
    - A [Character] object is a record; a method that mutates [self] returns
      the new record (next to its return value when it has one).
    - The [Combat] object holds two distinct objects, [self.player] and
      [self.enemy]; they are the two slots of the [world], and a method that
      takes a character argument takes the slot ([who]) it lives in.
    - [random] is an unbounded source of raw draws [rng : nat -> Z] read at
      the cursor [rpos]; [input()] reads the next line of [inputs] and raises
      [EOFError] when there is none.
    - Text written by [print] is not part of the model. *)

From Stdlib Require Import ZArith QArith Lia.
From stdpp Require Import base gmap strings.

Local Open Scope string_scope.
Local Open Scope Z_scope.

(** ** Items are module-level singletons, held by reference *)

(** The four [Item] objects created at module level.  An inventory stores a
    reference to one of them, never a copy. *)
Inductive item_ref : Type :=
  | HEALTH_POTION
  | SCROLL_PROTECTION
  | ELVEN_BLADE
  | ARCANE_FOCUS.

#[global] Instance item_ref_eq_dec : EqDecision item_ref.
Proof. solve_decision. Defined.

(** ** class Character *)

Record Character : Type := mkCharacter {
  name : string;
  max_hp : Z;
  current_hp : Z;
  strength : Z;
  agility : Z;
  magic : Z;
  ability_name : string;
  is_defending : bool;
  temp_defense_buff : Z;
  inventory : gmap string item_ref;
  weapon_boost : Z
}.

(** Attribute assignment [self.f = v]. *)
Definition set_current_hp (v : Z) (c : Character) : Character :=
  mkCharacter (name c) (max_hp c) v (strength c) (agility c) (magic c)
    (ability_name c) (is_defending c) (temp_defense_buff c) (inventory c)
    (weapon_boost c).

Definition set_strength (v : Z) (c : Character) : Character :=
  mkCharacter (name c) (max_hp c) (current_hp c) v (agility c) (magic c)
    (ability_name c) (is_defending c) (temp_defense_buff c) (inventory c)
    (weapon_boost c).

Definition set_magic (v : Z) (c : Character) : Character :=
  mkCharacter (name c) (max_hp c) (current_hp c) (strength c) (agility c) v
    (ability_name c) (is_defending c) (temp_defense_buff c) (inventory c)
    (weapon_boost c).

Definition set_is_defending (v : bool) (c : Character) : Character :=
  mkCharacter (name c) (max_hp c) (current_hp c) (strength c) (agility c)
    (magic c) (ability_name c) v (temp_defense_buff c) (inventory c)
    (weapon_boost c).

Definition set_temp_defense_buff (v : Z) (c : Character) : Character :=
  mkCharacter (name c) (max_hp c) (current_hp c) (strength c) (agility c)
    (magic c) (ability_name c) (is_defending c) v (inventory c)
    (weapon_boost c).

Definition set_inventory (v : gmap string item_ref) (c : Character)
  : Character :=
  mkCharacter (name c) (max_hp c) (current_hp c) (strength c) (agility c)
    (magic c) (ability_name c) (is_defending c) (temp_defense_buff c) v
    (weapon_boost c).

Definition set_weapon_boost (v : Z) (c : Character) : Character :=
  mkCharacter (name c) (max_hp c) (current_hp c) (strength c) (agility c)
    (magic c) (ability_name c) (is_defending c) (temp_defense_buff c)
    (inventory c) v.

(** [Character.__init__]: full health, no combat state, empty inventory. *)
Definition Character_init (name : string) (strength agility magic max_hp : Z)
    (ability_name : string) : Character :=
  mkCharacter name max_hp max_hp strength agility magic ability_name
    false 0 ∅ 0.

(** Truth value of an integer, as in [if x:] and [not x]. *)
Definition truthy (x : Z) : bool := negb (x =? 0).

(** [Character.take_damage]: returns the value of the local [damage] at the
    [return], and the mutated object. *)
Definition take_damage (self : Character) (damage : Z) : Z * Character :=
  let '(damage, self) :=
    if is_defending self
    then (Z.max 1 (damage / 2), set_is_defending false self)
    else (damage, self) in
  let damage := Z.max 1 (damage - temp_defense_buff self) in
  let self :=
    if 0 <? temp_defense_buff self
    then set_temp_defense_buff 0 self
    else self in
  let self := set_current_hp (current_hp self - damage) self in
  let self := set_current_hp (Z.max 0 (current_hp self)) self in
  (damage, self).

(** [Character.heal]. *)
Definition heal (self : Character) (amount : Z) : Character :=
  set_current_hp (Z.min (max_hp self) (current_hp self + amount)) self.

(** The player subclasses only fix the constructor arguments. *)
Definition Warrior (name : string) : Character :=
  Character_init name 14 8 5 120 "Shield Bash".

Definition Mage (name : string) : Character :=
  Character_init name 6 9 15 90 "Arcane Bolt".

Definition Rogue (name : string) : Character :=
  Character_init name 10 13 7 100 "Sneak Attack".

(** ** class Item *)

Record Item : Type := mkItem {
  item_name : string;
  description : string;
  effect : option (Character -> Character)
}.

(** [Item.use]: the effect runs when there is one, and the return value says
    only whether there is one. *)
Definition use (self : Item) (target : Character) : bool * Character :=
  match effect self with
  | Some f => (true, f target)
  | None => (false, target)
  end.

Definition use_health_potion (player : Character) : Character :=
  heal player 40.

Definition use_scroll_of_protection (player : Character) : Character :=
  set_temp_defense_buff 15 player.

Definition use_elven_blade (player : Character) : Character :=
  if negb (truthy (weapon_boost player))
  then
    let player := set_weapon_boost 5 player in
    set_strength (strength player + 5) player
  else player.

(** The lambda of [ARCANE_FOCUS]: the tuple evaluates left to right. *)
Definition use_arcane_focus (p : Character) : Character :=
  if negb (truthy (weapon_boost p))
  then
    let p := set_magic (magic p + 5) p in
    set_weapon_boost 5 p
  else p.

(** Dereferencing an item reference. *)
Definition item_of (r : item_ref) : Item :=
  match r with
  | HEALTH_POTION =>
      mkItem "Health Potion" "Restores 40 HP." (Some use_health_potion)
  | SCROLL_PROTECTION =>
      mkItem "Scroll of Protection"
        "Grants +15 temporary defense for the next turn."
        (Some use_scroll_of_protection)
  | ELVEN_BLADE =>
      mkItem "Elven Blade"
        "A legendary weapon granting a permanent +5 Strength boost."
        (Some use_elven_blade)
  | ARCANE_FOCUS =>
      mkItem "Arcane Focus"
        "An ancient artifact granting a permanent +5 Magic boost."
        (Some use_arcane_focus)
  end.

(** ** The state a [Combat] object runs in *)

Record world : Type := mkWorld {
  player : Character;
  enemy : Character;
  rng : nat -> Z;
  rpos : nat;
  inputs : list string
}.

Definition set_player (c : Character) (w : world) : world :=
  mkWorld c (enemy w) (rng w) (rpos w) (inputs w).

Definition set_enemy (c : Character) (w : world) : world :=
  mkWorld (player w) c (rng w) (rpos w) (inputs w).

(** The two objects a [Combat] refers to. *)
Inductive who : Type := Player | Enemy.

Definition get (x : who) (w : world) : Character :=
  match x with Player => player w | Enemy => enemy w end.

Definition put (x : who) (c : Character) (w : world) : world :=
  match x with Player => set_player c w | Enemy => set_enemy c w end.

(** A call returns a value and the new state, or is cut short by the
    [EOFError] of [input()] (the only exception that leaves the combat code),
    or has used up the loop budget of the model. *)
Inductive result (A : Type) : Type :=
  | Ok (a : A) (w : world)
  | EOFError (w : world)
  | OutOfFuel.

Arguments Ok {A} a w.
Arguments EOFError {A} w.
Arguments OutOfFuel {A}.

Definition M (A : Type) : Type := world -> result A.

Definition ret {A : Type} (a : A) : M A := fun w => Ok a w.

Definition bind {A B : Type} (m : M A) (k : A -> M B) : M B :=
  fun w =>
    match m w with
    | Ok a w' => k a w'
    | EOFError w' => EOFError w'
    | OutOfFuel => OutOfFuel
    end.

Notation "x <- m ;; k" := (bind m (fun x => k))
  (at level 100, m at next level, right associativity).
Notation "m ;;; k" := (bind m (fun _ => k))
  (at level 100, right associativity).

Definition read (x : who) : M Character := fun w => Ok (get x w) w.

(** [self.<x>.<method>(...)] for a method that mutates its object. *)
Definition call {A : Type} (x : who) (f : Character -> A * Character) : M A :=
  fun w => let '(a, c) := f (get x w) in Ok a (put x c w).

Definition assign (x : who) (f : Character -> Character) : M unit :=
  fun w => Ok tt (put x (f (get x w)) w).

(** [random.randint(a, b)]: the next raw draw, brought into [a..b]. *)
Definition randint (a b : Z) : M Z :=
  fun w =>
    Ok (a + rng w (rpos w) mod (b - a + 1))
       (mkWorld (player w) (enemy w) (rng w) (S (rpos w)) (inputs w)).

(** [random.random()] is [k / 2^53] for an integer [0 <= k < 2^53]; the
    model returns [k]. *)
Definition random : M Z :=
  fun w =>
    Ok (rng w (rpos w) mod 2 ^ 53)
       (mkWorld (player w) (enemy w) (rng w) (S (rpos w)) (inputs w)).

(** The double [0.70] is [6305039478318694 / 2^53], so that
    [random.random() < 0.70] is this test on [k]. *)
Definition lt_0_70 (k : Z) : bool := k <? 6305039478318694.

(** [input(...)]: a line of [inputs] is the string the call site works with,
    that is, after its [strip().lower()] or [strip().title()]. *)
Definition input : M string :=
  fun w =>
    match inputs w with
    | [] => EOFError w
    | line :: rest =>
        Ok line (mkWorld (player w) (enemy w) (rng w) (rpos w) rest)
    end.

(** ** class Combat *)

(** The percentages computed with [/] are floats in the source; they are
    kept as exact rationals.  A roll is an integer between 1 and 100 and the
    stats are integers, so that the comparison of the roll with the float
    gives the same answer as with the rational. *)
Definition crit_chance (attacker : Character) : Q :=
  (5 + inject_Z (agility attacker) / 10)%Q.

Definition dodge_chance (defender : Character) : Q :=
  (inject_Z (agility defender) / 5)%Q.

Definition roll_le (roll : Z) (chance : Q) : bool :=
  Qle_bool (inject_Z roll) chance.

(** [int(x)] of a float: truncation toward zero. *)
Definition int_of (x : Q) : Z := Z.quot (Qnum x) (Z.pos (Qden x)).

Definition _calculate_damage (attacker defender : who) (stat_multiplier : Z)
    (is_magic : bool) : M Z :=
  die <- randint 1 6 ;;
  let base_damage := die * stat_multiplier in
  a <- read attacker ;;
  crit_roll <- randint 1 100 ;;
  let is_crit := roll_le crit_roll (crit_chance a) in
  let base_damage := if is_crit then base_damage * 2 else base_damage in
  d <- read defender ;;
  dodge_roll <- randint 1 100 ;;
  if roll_le dodge_roll (dodge_chance d)
  then ret 0
  else
    damage_taken <- call defender (fun c => take_damage c base_damage) ;;
    ret damage_taken.

Definition _player_attack : M unit :=
  p <- read Player ;;
  let effective_strength := strength p + weapon_boost p in
  _calculate_damage Player Enemy effective_strength false ;;;
  ret tt.

Definition _player_defend : M unit :=
  assign Player (set_is_defending true).

Definition _player_magic : M unit :=
  assign Player (set_temp_defense_buff 0) ;;;
  p <- read Player ;;
  let ability := ability_name p in
  if String.eqb ability "Shield Bash" then
    assign Player (set_is_defending true) ;;;
    die <- randint 1 6 ;;
    p <- read Player ;;
    let counter_damage := die * (strength p + weapon_boost p) / 2 in
    call Enemy (fun c => take_damage c (Z.max 1 counter_damage)) ;;;
    ret tt
  else if String.eqb ability "Arcane Bolt" then
    miss_roll <- randint 1 100 ;;
    if miss_roll <=? 10 then ret tt
    else
      p <- read Player ;;
      let effective_magic := int_of (inject_Z (magic p) * (3 # 2))%Q in
      _calculate_damage Player Enemy effective_magic true ;;;
      ret tt
  else if String.eqb ability "Sneak Attack" then
    die <- randint 1 6 ;;
    p <- read Player ;;
    let base_damage := die * (strength p + weapon_boost p) in
    crit_roll <- randint 1 100 ;;
    p <- read Player ;;
    let is_crit :=
      roll_le crit_roll (20 + inject_Z (agility p) / 10)%Q in
    let base_damage := if is_crit then base_damage * 2 else base_damage in
    call Enemy (fun c => take_damage c base_damage) ;;;
    ret tt
  else ret tt.

(** The two items that are equipped, not consumed. *)
Definition is_permanent (item_name : string) : bool :=
  String.eqb item_name "Elven Blade" || String.eqb item_name "Arcane Focus".

(** The [while True] loop of [_player_use_item].  The result is [Some true],
    [Some false], or [None] for a bare [return]. *)
Fixpoint _player_use_item_loop (fuel : nat) : M (option bool) :=
  match fuel with
  | O => fun _ => OutOfFuel
  | S fuel =>
      item_name <- input ;;
      if String.eqb item_name "Cancel" then ret (Some false)
      else
        p <- read Player ;;
        match inventory p !! item_name with
        | Some item =>
            if is_permanent item_name && truthy (weapon_boost p)
            then _player_use_item_loop fuel
            else
              used <- call Player (use (item_of item)) ;;
              if used then
                (if negb (is_permanent item_name)
                 then
                   assign Player
                     (fun c => set_inventory (delete item_name (inventory c)) c)
                 else ret tt) ;;;
                ret (Some true)
              else _player_use_item_loop fuel
        | None => _player_use_item_loop fuel
        end
  end.

Definition _player_use_item (fuel : nat) : M (option bool) :=
  p <- read Player ;;
  if bool_decide (inventory p = ∅) then ret None
  else _player_use_item_loop fuel.

(** Truth value of what [_player_use_item] returns. *)
Definition is_true_result (r : option bool) : bool :=
  match r with Some b => b | None => false end.

Definition _enemy_special_move : M unit :=
  e <- read Enemy ;;
  let enemy_name := name e in
  if String.eqb enemy_name "Minor Bandit" then
    roll <- randint 1 4 ;;
    e <- read Enemy ;;
    let damage := roll * strength e in
    p <- read Player ;;
    let is_defending_temp := is_defending p in
    assign Player (set_is_defending false) ;;;
    call Player (fun c => take_damage c damage) ;;;
    assign Player (set_is_defending is_defending_temp)
  else if String.eqb enemy_name "Bandit King" then
    assign Player (set_temp_defense_buff 5) ;;;
    e <- read Enemy ;;
    _calculate_damage Enemy Player (strength e) false ;;;
    ret tt
  else if String.eqb enemy_name "Arch-Lich, Final Boss" then
    roll <- randint 4 10 ;;
    e <- read Enemy ;;
    let damage := roll * magic e in
    damage_taken <- call Player (fun c => take_damage c damage) ;;
    let heal_amount := damage_taken / 2 in
    assign Enemy
      (fun c =>
         set_current_hp (Z.min (max_hp c) (current_hp c + heal_amount)) c)
  else
    e <- read Enemy ;;
    _calculate_damage Enemy Player (strength e) false ;;;
    ret tt.

Definition _enemy_turn : M unit :=
  assign Player (set_is_defending false) ;;;
  k <- random ;;
  if lt_0_70 k then
    e <- read Enemy ;;
    _calculate_damage Enemy Player (strength e) false ;;;
    ret tt
  else _enemy_special_move.

(** The inner loop [while not action_spent] of [start_combat]: it returns
    once an action has spent the turn.  An input that is no key of [actions]
    raises [ValueError], which the [except] clause turns into a new prompt. *)
Fixpoint player_turn (fuel : nat) : M unit :=
  match fuel with
  | O => fun _ => OutOfFuel
  | S fuel =>
      user_input <- input ;;
      if String.eqb user_input "item" then
        r <- _player_use_item fuel ;;
        if is_true_result r then ret tt else player_turn fuel
      else if String.eqb user_input "stats" then player_turn fuel
      else if String.eqb user_input "attack" then _player_attack
      else if String.eqb user_input "defend" then _player_defend
      else if String.eqb user_input "magic" then _player_magic
      else player_turn fuel
  end.

(** The outer loop of [start_combat] and the [return] after it. *)
Fixpoint start_combat_loop (fuel : nat) : M bool :=
  match fuel with
  | O => fun _ => OutOfFuel
  | S fuel' =>
      p <- read Player ;;
      e <- read Enemy ;;
      if (0 <? current_hp p) && (0 <? current_hp e) then
        player_turn fuel ;;;
        p <- read Player ;;
        if current_hp p <=? 0 then ret false
        else
          e <- read Enemy ;;
          if current_hp e <=? 0 then ret true
          else
            _enemy_turn ;;;
            start_combat_loop fuel'
      else ret (0 <? current_hp p)
  end.

(** [Combat.start_combat].  Every turn of every loop reads a line first, so
    one more turn than there are lines is budget enough (see
    [start_combat_fuel]). *)
Definition start_combat : M bool :=
  fun w => start_combat_loop (S (length (inputs w))) w.

(** * Properties *)

(** ** Hit points and [take_damage] *)

(** The invariant of the data model on hit points. *)
Definition hp_ok (c : Character) : Prop :=
  0 <= current_hp c <= max_hp c.

(** What the damage is after the two mitigations. *)
Definition mitigated (c : Character) (damage : Z) : Z :=
  Z.max 1
    ((if is_defending c then Z.max 1 (damage / 2) else damage)
     - temp_defense_buff c).

(** Field reads through the setters. *)
Ltac fields :=
  cbn [fst snd name max_hp current_hp strength agility magic ability_name
       is_defending temp_defense_buff inventory weapon_boost
       set_current_hp set_strength set_magic set_is_defending
       set_temp_defense_buff set_inventory set_weapon_boost] in *.

(** Both branches of both tests of [take_damage]. *)
Ltac take_damage_cases c :=
  unfold take_damage;
  destruct (is_defending c) eqn:?; fields;
  destruct (0 <? temp_defense_buff c) eqn:?; fields.

Lemma take_damage_fst (c : Character) (damage : Z) :
  fst (take_damage c damage) = mitigated c damage.
Proof.
  unfold mitigated. take_damage_cases c; reflexivity.
Qed.

Lemma take_damage_hp (c : Character) (damage : Z) :
  current_hp (snd (take_damage c damage))
  = Z.max 0 (current_hp c - mitigated c damage).
Proof.
  unfold mitigated. take_damage_cases c; reflexivity.
Qed.

Lemma take_damage_max_hp (c : Character) (damage : Z) :
  max_hp (snd (take_damage c damage)) = max_hp c.
Proof.
  take_damage_cases c; reflexivity.
Qed.

Lemma take_damage_is_defending (c : Character) (damage : Z) :
  is_defending (snd (take_damage c damage)) = false.
Proof.
  take_damage_cases c; congruence.
Qed.

Lemma take_damage_buff (c : Character) (damage : Z) :
  temp_defense_buff (snd (take_damage c damage))
  = Z.min 0 (temp_defense_buff c).
Proof.
  take_damage_cases c; lia.
Qed.

Lemma mitigated_pos (c : Character) (damage : Z) : 1 <= mitigated c damage.
Proof. unfold mitigated. lia. Qed.

Lemma take_damage_hp_ok (c : Character) (damage : Z) :
  hp_ok c -> hp_ok (snd (take_damage c damage)).
Proof.
  unfold hp_ok. rewrite take_damage_hp, take_damage_max_hp.
  pose proof (mitigated_pos c damage). lia.
Qed.

Lemma heal_hp_ok (c : Character) (amount : Z) :
  0 <= amount -> hp_ok c -> hp_ok (heal c amount).
Proof. unfold hp_ok, heal. fields. lia. Qed.

(** A combatant with 5 hit points left, to be hit for 10. *)
Definition wounded : Character := set_current_hp 5 (Warrior "Hero").

(** C2, as the claim states it, fails: a hit of 10 on a combatant with 5 hit
    points returns 10, while only 5 hit points are lost. *)
Lemma take_damage_overkill :
  fst (take_damage wounded 10) = 10
  /\ current_hp wounded - current_hp (snd (take_damage wounded 10)) = 5
  /\ ~ (forall (c : Character) (amount : Z),
          fst (take_damage c amount)
          = current_hp c - current_hp (snd (take_damage c amount))).
Proof.
  split; [reflexivity | split; [reflexivity |]].
  intros H. specialize (H wounded 10). vm_compute in H. discriminate H.
Qed.

(** C2, amended: [take_damage] returns the damage left after mitigation,
    whatever the hit points are; the hit points become
    [max 0 (current_hp - damage)]; so the return value is the loss of hit
    points exactly when that damage does not exceed the hit points the
    combatant had. *)
Theorem take_damage_returns_mitigated (c : Character) (amount : Z) :
  fst (take_damage c amount) = mitigated c amount
  /\ current_hp (snd (take_damage c amount))
     = Z.max 0 (current_hp c - fst (take_damage c amount))
  /\ (fst (take_damage c amount)
      = current_hp c - current_hp (snd (take_damage c amount))
      <-> fst (take_damage c amount) <= current_hp c).
Proof.
  rewrite take_damage_hp, take_damage_fst.
  split; [reflexivity | split; [reflexivity | lia]].
Qed.

(** ** Reasoning about calls *)

(** [wp m Q w]: if the call [m] returns from [w], the value returned and the
    state reached satisfy [Q]. *)
Definition wp {A : Type} (m : M A) (Q : A -> world -> Prop) (w : world)
  : Prop :=
  match m w with
  | Ok a w' => Q a w'
  | EOFError _ => True
  | OutOfFuel => True
  end.

Lemma wp_ret {A : Type} (a : A) (Q : A -> world -> Prop) (w : world) :
  Q a w -> wp (ret a) Q w.
Proof. intros H. exact H. Qed.

Lemma wp_bind {A B : Type} (m : M A) (k : A -> M B)
    (Q : B -> world -> Prop) (w : world) :
  wp m (fun a w' => wp (k a) Q w') w -> wp (bind m k) Q w.
Proof. unfold wp, bind. destruct (m w); auto. Qed.

Lemma wp_mono {A : Type} (m : M A) (Q1 Q2 : A -> world -> Prop) (w : world) :
  wp m Q1 w -> (forall a w', Q1 a w' -> Q2 a w') -> wp m Q2 w.
Proof. unfold wp. destruct (m w); auto. Qed.

(** [keeps Inv m]: the call [m] maintains [Inv]. *)
Definition keeps (Inv : world -> Prop) {A : Type} (m : M A) : Prop :=
  forall w, Inv w -> wp m (fun _ w' => Inv w') w.

Section Keeps.
Variable Inv : world -> Prop.

Lemma keeps_ret {A : Type} (a : A) : keeps Inv (ret a).
Proof. intros w H. exact H. Qed.

Lemma keeps_bind {A B : Type} (m : M A) (k : A -> M B) :
  keeps Inv m -> (forall a, keeps Inv (k a)) -> keeps Inv (bind m k).
Proof.
  intros Hm Hk w H. apply wp_bind.
  eapply wp_mono; [apply Hm, H |]. intros a w' H'. apply Hk, H'.
Qed.

Lemma keeps_read (x : who) : keeps Inv (read x).
Proof. intros w H. exact H. Qed.

Lemma keeps_fuel {A : Type} : keeps Inv (fun _ => @OutOfFuel A).
Proof. intros w H. exact I. Qed.
End Keeps.

(** Both combatants have their hit points within bounds. *)
Definition hp_inv (w : world) : Prop :=
  hp_ok (player w) /\ hp_ok (enemy w).

Lemma keeps_randint (a b : Z) : keeps hp_inv (randint a b).
Proof. intros w H. exact H. Qed.

Lemma keeps_random : keeps hp_inv random.
Proof. intros w H. exact H. Qed.

Lemma keeps_input : keeps hp_inv input.
Proof.
  intros w H. unfold wp, input.
  destruct (inputs w); [exact I | exact H].
Qed.

Lemma keeps_assign (x : who) (f : Character -> Character) :
  (forall c, hp_ok c -> hp_ok (f c)) -> keeps hp_inv (assign x f).
Proof.
  intros Hf w [Hp He]. destruct x; split; cbn; auto.
Qed.

Lemma keeps_call {A : Type} (x : who) (f : Character -> A * Character) :
  (forall c, hp_ok c -> hp_ok (snd (f c))) -> keeps hp_inv (call x f).
Proof.
  intros Hf w [Hp He]. unfold wp, call.
  destruct x; cbn [get].
  - specialize (Hf _ Hp). destruct (f (player w)). split; cbn; auto.
  - specialize (Hf _ He). destruct (f (enemy w)). split; cbn; auto.
Qed.

(** The four item effects keep the hit points within bounds. *)
Lemma item_effect_hp_ok (r : item_ref) (c : Character) :
  hp_ok c -> hp_ok (snd (use (item_of r) c)).
Proof.
  intros H. destruct r; cbn [use item_of effect snd].
  - apply heal_hp_ok; [lia | exact H].
  - exact H.
  - unfold use_elven_blade. destruct (negb _); exact H.
  - unfold use_arcane_focus. destruct (negb _); exact H.
Qed.

(** Maintenance proofs follow the shape of the code. *)
Ltac keeps_step :=
  lazymatch goal with
  | |- keeps _ (if ?b then _ else _) => destruct b
  | |- keeps _ (match ?o with Some _ => _ | None => _ end) => destruct o
  | |- keeps _ (bind _ _) => apply keeps_bind; [| intros ?]
  | |- keeps _ (ret _) => apply keeps_ret
  | |- keeps _ (read _) => apply keeps_read
  | |- keeps _ (randint _ _) => apply keeps_randint
  | |- keeps _ random => apply keeps_random
  | |- keeps _ input => apply keeps_input
  | |- keeps _ (fun _ => OutOfFuel) => apply keeps_fuel
  | |- keeps _ (assign _ _) => apply keeps_assign; intros ? ?; try assumption
  | |- keeps _ (call _ _) => apply keeps_call; intros ? ?
  end.

Lemma keeps_calculate_damage (a d : who) (s : Z) (m : bool) :
  keeps hp_inv (_calculate_damage a d s m).
Proof.
  unfold _calculate_damage. repeat keeps_step.
  apply take_damage_hp_ok; assumption.
Qed.

Lemma keeps_player_attack : keeps hp_inv _player_attack.
Proof.
  unfold _player_attack. repeat keeps_step. apply keeps_calculate_damage.
Qed.

Lemma keeps_player_defend : keeps hp_inv _player_defend.
Proof. unfold _player_defend. repeat keeps_step. Qed.

Lemma keeps_player_magic : keeps hp_inv _player_magic.
Proof.
  unfold _player_magic. repeat keeps_step;
    try apply keeps_calculate_damage; apply take_damage_hp_ok; assumption.
Qed.

Lemma keeps_player_use_item_loop (fuel : nat) :
  keeps hp_inv (_player_use_item_loop fuel).
Proof.
  induction fuel as [| fuel IH]; cbn [_player_use_item_loop].
  - apply keeps_fuel.
  - repeat keeps_step; try apply IH. apply item_effect_hp_ok; assumption.
Qed.

Lemma keeps_player_use_item (fuel : nat) :
  keeps hp_inv (_player_use_item fuel).
Proof.
  unfold _player_use_item. repeat keeps_step.
  apply keeps_player_use_item_loop.
Qed.

(** A call whose return value matters to what follows. *)
Lemma keeps_call_bind {A B : Type} (x : who) (f : Character -> A * Character)
    (P : A -> Prop) (k : A -> M B) :
  (forall c, hp_ok c -> hp_ok (snd (f c)) /\ P (fst (f c))) ->
  (forall a, P a -> keeps hp_inv (k a)) ->
  keeps hp_inv (bind (call x f) k).
Proof.
  intros Hf Hk w [Hp He]. apply wp_bind. unfold wp at 1, call.
  destruct x; cbn [get].
  - destruct (Hf _ Hp) as [H1 H2]. destruct (f (player w)) as [a c].
    apply Hk; [exact H2 | split; cbn; auto].
  - destruct (Hf _ He) as [H1 H2]. destruct (f (enemy w)) as [a c].
    apply Hk; [exact H2 | split; cbn; auto].
Qed.

Lemma keeps_enemy_special_move : keeps hp_inv _enemy_special_move.
Proof.
  unfold _enemy_special_move.
  keeps_step; [keeps_step |].
  keeps_step; [| keeps_step; [| keeps_step]].
  - repeat keeps_step. apply take_damage_hp_ok; assumption.
  - repeat keeps_step; try apply keeps_calculate_damage.
  - keeps_step; [keeps_step |]. keeps_step; [keeps_step |].
    apply keeps_call_bind with (P := fun d => 1 <= d).
    + intros c Hc. split; [apply take_damage_hp_ok, Hc |].
      rewrite take_damage_fst. apply mitigated_pos.
    + intros damage_taken Hd. keeps_step.
      unfold hp_ok in *. fields.
      assert (0 <= damage_taken / 2) by (apply Z.div_pos; lia). lia.
  - repeat keeps_step. apply keeps_calculate_damage.
Qed.

Lemma keeps_enemy_turn : keeps hp_inv _enemy_turn.
Proof.
  unfold _enemy_turn. repeat keeps_step;
    try apply keeps_calculate_damage; try apply keeps_enemy_special_move.
Qed.

Lemma keeps_player_turn (fuel : nat) : keeps hp_inv (player_turn fuel).
Proof.
  induction fuel as [| fuel IH]; cbn [player_turn].
  - apply keeps_fuel.
  - repeat keeps_step;
      first [ apply IH | apply keeps_player_use_item
            | apply keeps_player_attack | apply keeps_player_defend
            | apply keeps_player_magic ].
Qed.

(** ** The loops of [start_combat] stop with the input *)

(** [runs eof m Q w]: from [w], the call [m] returns with [Q], or, where
    [eof] allows it, is cut short by the end of the input; the loop budget is
    not what stops it. *)
Definition runs (eof : Prop) {A : Type} (m : M A)
    (Q : A -> world -> Prop) (w : world) : Prop :=
  match m w with
  | Ok a w' => Q a w'
  | EOFError _ => eof
  | OutOfFuel => False
  end.

(** [budget n n' m]: started with fewer than [n] lines left, [m] runs and
    leaves fewer than [n']. *)
Definition budget (eof : Prop) (n n' : nat) {A : Type} (m : M A) : Prop :=
  forall w, (length (inputs w) < n)%nat ->
    runs eof m (fun _ w' => (length (inputs w') < n')%nat) w.

Section Budget.
Variable eof : Prop.

Lemma budget_bind {A B : Type} (n n1 n2 : nat) (m : M A) (k : A -> M B) :
  budget eof n n1 m ->
  (forall a, budget eof n1 n2 (k a)) ->
  budget eof n n2 (bind m k).
Proof.
  intros Hm Hk w Hw. specialize (Hm w Hw). unfold runs, bind in *.
  destruct (m w) as [a w' | w' |]; [| exact Hm | exact Hm].
  apply (Hk a w' Hm).
Qed.

Lemma budget_weaken {A : Type} (n n' n'' : nat) (m : M A) :
  (n' <= n'')%nat -> budget eof n n' m -> budget eof n n'' m.
Proof.
  intros Hle Hm w Hw. specialize (Hm w Hw). unfold runs in *.
  destruct (m w); [lia | exact Hm | exact Hm].
Qed.

Lemma budget_input_bind {B : Type} (n n' : nat) (k : string -> M B) :
  eof ->
  (forall line, budget eof n n' (k line)) ->
  budget eof (S n) n' (bind input k).
Proof.
  intros Heof Hk w Hw. unfold runs, bind, input.
  destruct (inputs w) as [| line rest] eqn:E; [exact Heof |].
  apply Hk. cbn in *. lia.
Qed.

Lemma budget_ret {A : Type} (n : nat) (a : A) : budget eof n n (ret a).
Proof. intros w Hw. exact Hw. Qed.

Lemma budget_read (n : nat) (x : who) : budget eof n n (read x).
Proof. intros w Hw. exact Hw. Qed.

Lemma budget_randint (n : nat) (a b : Z) : budget eof n n (randint a b).
Proof. intros w Hw. exact Hw. Qed.

Lemma budget_random (n : nat) : budget eof n n random.
Proof. intros w Hw. exact Hw. Qed.

Lemma budget_assign (n : nat) (x : who) (f : Character -> Character) :
  budget eof n n (assign x f).
Proof. intros w Hw. destruct x; exact Hw. Qed.

Lemma budget_call {A : Type} (n : nat) (x : who)
    (f : Character -> A * Character) :
  budget eof n n (call x f).
Proof.
  intros w Hw. unfold runs, call. destruct (f (get x w)).
  destruct x; exact Hw.
Qed.

End Budget.

Ltac budget_step :=
  lazymatch goal with
  | |- budget _ _ _ (if ?b then _ else _) => destruct b
  | |- budget _ _ _ (match ?o with Some _ => _ | None => _ end) => destruct o
  | |- budget _ _ _ (bind _ _) => eapply budget_bind; [| intros ?]
  | |- budget _ _ _ (ret _) => apply budget_ret
  | |- budget _ _ _ (read _) => apply budget_read
  | |- budget _ _ _ (randint _ _) => apply budget_randint
  | |- budget _ _ _ random => apply budget_random
  | |- budget _ _ _ (assign _ _) => apply budget_assign
  | |- budget _ _ _ (call _ _) => apply budget_call
  end.

Lemma budget_calculate_damage (eof : Prop) (n : nat) (a d : who) (s : Z)
    (m : bool) :
  budget eof n n (_calculate_damage a d s m).
Proof. unfold _calculate_damage. repeat budget_step. Qed.

Lemma budget_player_attack (eof : Prop) (n : nat) :
  budget eof n n _player_attack.
Proof.
  unfold _player_attack. repeat budget_step. apply budget_calculate_damage.
Qed.

Lemma budget_player_defend (eof : Prop) (n : nat) :
  budget eof n n _player_defend.
Proof. apply budget_assign. Qed.

Lemma budget_player_magic (eof : Prop) (n : nat) :
  budget eof n n _player_magic.
Proof.
  unfold _player_magic. repeat budget_step. apply budget_calculate_damage.
Qed.

Lemma budget_enemy_special_move (eof : Prop) (n : nat) :
  budget eof n n _enemy_special_move.
Proof.
  unfold _enemy_special_move. repeat budget_step;
    apply budget_calculate_damage.
Qed.

Lemma budget_enemy_turn (eof : Prop) (n : nat) :
  budget eof n n _enemy_turn.
Proof.
  unfold _enemy_turn. repeat budget_step;
    first [apply budget_calculate_damage | apply budget_enemy_special_move].
Qed.

(** A call built without [input()] and without loops always returns. *)
Lemma always_returns {A : Type} (m : M A) (w : world) :
  budget False (S (length (inputs w))) (S (length (inputs w))) m ->
  exists a w', m w = Ok a w'.
Proof.
  intros H. specialize (H w (Nat.lt_succ_diag_r _)). unfold runs in H.
  destruct (m w) as [a w' | |]; [eauto | contradiction | contradiction].
Qed.

Lemma budget_player_use_item_loop (fuel : nat) :
  budget True fuel (pred fuel) (_player_use_item_loop fuel).
Proof.
  induction fuel as [| fuel IH].
  - intros w Hw. lia.
  - cbn [_player_use_item_loop pred].
    apply budget_input_bind; [exact I |]. intros item_name.
    repeat budget_step;
      (eapply budget_weaken; [| apply IH]; lia).
Qed.

Lemma budget_player_use_item (fuel : nat) :
  budget True fuel fuel (_player_use_item fuel).
Proof.
  unfold _player_use_item. repeat budget_step.
  eapply budget_weaken; [| apply budget_player_use_item_loop]. lia.
Qed.

Lemma budget_player_turn (fuel : nat) :
  budget True fuel (pred fuel) (player_turn fuel).
Proof.
  induction fuel as [| fuel IH].
  - intros w Hw. lia.
  - cbn [player_turn pred].
    apply budget_input_bind; [exact I |]. intros user_input.
    repeat budget_step;
      first [ apply budget_player_use_item
            | apply budget_player_attack
            | apply budget_player_defend
            | apply budget_player_magic
            | eapply budget_weaken; [| apply IH]; lia ].
Qed.

Lemma budget_start_combat_loop (fuel : nat) :
  budget True fuel fuel (start_combat_loop fuel).
Proof.
  induction fuel as [| fuel IH].
  - intros w Hw. lia.
  - cbn [start_combat_loop].
    budget_step; [budget_step |]. budget_step; [budget_step |].
    budget_step; [| budget_step].
    eapply budget_bind; [apply budget_player_turn | intros _].
    cbn [pred].
    repeat budget_step;
      first [ apply budget_enemy_turn
            | eapply budget_weaken; [| apply IH]; lia
            | eapply budget_weaken; [| apply budget_ret]; lia
            | eapply budget_weaken; [| apply budget_read]; lia ].
Qed.

(** The budget [start_combat] gives its loops is never what stops it: it
    returns, or the input ends first. *)
Lemma start_combat_fuel (w : world) : start_combat w <> OutOfFuel.
Proof.
  pose proof (budget_start_combat_loop (S (length (inputs w))) w) as H.
  unfold runs in H. unfold start_combat. intros E. rewrite E in H.
  apply H. lia.
Qed.

(** ** The outcome of an encounter *)

Lemma wp_read_bind {B : Type} (x : who) (k : Character -> M B)
    (Q : B -> world -> Prop) (w : world) :
  wp (k (get x w)) Q w -> wp (bind (read x) k) Q w.
Proof. intros H. exact H. Qed.

(** What the value returned by the loop says about the hit points. *)
Definition verdict (b : bool) (w : world) : Prop :=
  if b
  then 0 < current_hp (player w) /\ current_hp (enemy w) <= 0
  else current_hp (player w) <= 0.

Lemma start_combat_loop_verdict (fuel : nat) (w : world) :
  hp_inv w ->
  wp (start_combat_loop fuel) (fun b w' => hp_inv w' /\ verdict b w') w.
Proof.
  revert w. induction fuel as [| fuel IH]; intros w Hw.
  - exact I.
  - cbn [start_combat_loop].
    do 2 apply wp_read_bind. cbn [get].
    destruct ((0 <? current_hp (player w)) && (0 <? current_hp (enemy w)))
      eqn:Alive.
    + apply wp_bind.
      eapply wp_mono; [apply keeps_player_turn, Hw |].
      intros u1 w1 H1. cbn beta in *.
      apply wp_read_bind. cbn [get].
      destruct (current_hp (player w1) <=? 0) eqn:Fallen.
      * apply wp_ret. split; [exact H1 |]. cbn. lia.
      * apply wp_read_bind. cbn [get].
        destruct (current_hp (enemy w1) <=? 0) eqn:Beaten.
        -- apply wp_ret. split; [exact H1 |]. cbn. lia.
        -- apply wp_bind.
           eapply wp_mono; [apply keeps_enemy_turn, H1 |].
           intros u2 w2 H2. cbn beta in *. apply IH, H2.
    + apply wp_ret. split; [exact Hw |].
      unfold verdict.
      destruct (0 <? current_hp (player w)) eqn:P; cbn in Alive; lia.
Qed.

(** C6: when [start_combat] returns, it returns [True] exactly when the
    enemy is at 0 hit points and the player above 0, and [False] exactly when
    the player is at 0.  Both combatants enter the encounter with their hit
    points within bounds, as the data model has them. *)
Theorem start_combat_outcome (w : world) (b : bool) (w' : world) :
  hp_ok (player w) ->
  hp_ok (enemy w) ->
  start_combat w = Ok b w' ->
  (b = true <-> current_hp (enemy w') = 0 /\ 0 < current_hp (player w'))
  /\ (b = false <-> current_hp (player w') = 0).
Proof.
  intros Hp He Hrun.
  pose proof (start_combat_loop_verdict (S (length (inputs w))) w
                (conj Hp He)) as H.
  unfold wp in H. unfold start_combat in Hrun. rewrite Hrun in H.
  destruct H as [[[Hp1 Hp2] [He1 He2]] Hv].
  unfold hp_ok in *.
  destruct b; cbn in Hv; repeat split; intros; try discriminate; lia.
Qed.

(** A Warrior meets the Minor Bandit of the first stage. *)
Definition minor_bandit : Character :=
  Character_init "Minor Bandit" 8 10 5 60 "Quick Strike".

(** The player attacks once; the die shows 6 and the two percentage rolls
    show 100: no critical hit, no dodge, 84 damage. *)
Definition one_blow : world :=
  mkWorld (Warrior "Hero") minor_bandit
    (fun n => match n with O => 5 | _ => 99 end) 0 ["attack"].

Lemma start_combat_outcome_witness :
  exists w' : world,
    start_combat one_blow = Ok true w'
    /\ ((true = true <->
         current_hp (enemy w') = 0 /\ 0 < current_hp (player w'))
        /\ (true = false <-> current_hp (player w') = 0)).
Proof.
  eexists. split.
  - vm_compute. reflexivity.
  - apply (start_combat_outcome one_blow).
    + unfold hp_ok. cbn. lia.
    + unfold hp_ok. cbn. lia.
    + vm_compute. reflexivity.
Defined.

(** ** The damage resolution, roll by roll *)

(** The state after [n] more draws. *)
Definition drawn (n : nat) (w : world) : world :=
  mkWorld (player w) (enemy w) (rng w) (n + rpos w)%nat (inputs w).

(** The [n]-th next roll of [random.randint(a, b)]. *)
Definition roll (a b : Z) (n : nat) (w : world) : Z :=
  a + rng w (n + rpos w)%nat mod (b - a + 1).

Lemma roll_range (a b : Z) (n : nat) (w : world) :
  a <= b -> a <= roll a b n w <= b.
Proof.
  intros H. unfold roll.
  pose proof (Z.mod_pos_bound (rng w (n + rpos w)%nat) (b - a + 1)). lia.
Qed.

(** The damage before mitigation: die times power, doubled by a critical
    hit. *)
Definition base_damage (attacker : Character) (stat_multiplier : Z)
    (w : world) : Z :=
  if roll_le (roll 1 100 1 w) (crit_chance attacker)
  then roll 1 6 0 w * stat_multiplier * 2
  else roll 1 6 0 w * stat_multiplier.

(** Whether the defender dodges: the third roll of the resolution. *)
Definition dodged (defender : Character) (w : world) : bool :=
  roll_le (roll 1 100 2 w) (dodge_chance defender).

(** [_calculate_damage] always returns: three rolls are drawn; a dodge
    returns 0 and touches nobody; otherwise the defender takes the base
    damage and what [take_damage] returns is returned. *)
Lemma _calculate_damage_run (a d : who) (s : Z) (m : bool) (w : world) :
  _calculate_damage a d s m w
  = if dodged (get d w) w
    then Ok 0 (drawn 3 w)
    else Ok (fst (take_damage (get d w) (base_damage (get a w) s w)))
            (put d (snd (take_damage (get d w) (base_damage (get a w) s w)))
                 (drawn 3 w)).
Proof.
  unfold _calculate_damage, dodged, base_damage, roll, drawn.
  unfold bind, randint, read, call, ret.
  destruct w as [p e r n i], a, d;
    cbn [get put set_player set_enemy player enemy rng rpos inputs Nat.add];
    (destruct (roll_le _ (dodge_chance _)); [reflexivity |]);
    destruct (roll_le _ (crit_chance _));
    destruct (take_damage _ _); reflexivity.
Qed.

(** ** Every hit costs at least one hit point *)

(** C10: a combatant with hit points left loses at least one of them in every
    [take_damage], whatever the defend flag and the buff are; and the damage
    resolution returns 0 only for a dodge, which leaves both combatants as
    they were. *)
Theorem take_damage_at_least_one (c : Character) (amount : Z)
    (a d : who) (s : Z) (m : bool) (w : world) :
  0 < current_hp c ->
  0 <= amount ->
  (1 <= fst (take_damage c amount)
   /\ current_hp (snd (take_damage c amount)) <= current_hp c - 1)
  /\ exists (r : Z) (w' : world),
       _calculate_damage a d s m w = Ok r w'
       /\ (r = 0 <-> dodged (get d w) w = true)
       /\ (r = 0 -> player w' = player w /\ enemy w' = enemy w).
Proof.
  intros Hhp _. split.
  - rewrite take_damage_hp, take_damage_fst.
    pose proof (mitigated_pos c amount). lia.
  - rewrite _calculate_damage_run.
    destruct (dodged (get d w) w).
    + exists 0, (drawn 3 w). repeat split; reflexivity.
    + eexists _, _. split; [reflexivity |].
      rewrite take_damage_fst.
      pose proof (mitigated_pos (get d w) (base_damage (get a w) s w)).
      split; [split; intros; [lia | discriminate] | lia].
Qed.

(** A fresh Warrior is hit for 0 while defending under a Scroll of
    Protection, and still loses a hit point. *)
Lemma take_damage_at_least_one_witness :
  let c := set_temp_defense_buff 15 (set_is_defending true (Warrior "Hero")) in
  (1 <= fst (take_damage c 0)
   /\ current_hp (snd (take_damage c 0)) <= current_hp c - 1)
  /\ exists (r : Z) (w' : world),
       _calculate_damage Player Enemy 14 false one_blow = Ok r w'
       /\ (r = 0 <-> dodged (get Enemy one_blow) one_blow = true)
       /\ (r = 0 -> player w' = player one_blow /\ enemy w' = enemy one_blow).
Proof.
  intros c.
  apply (take_damage_at_least_one c 0 Player Enemy 14 false one_blow).
  - reflexivity.
  - lia.
Defined.

(** ** Hit points stay within bounds *)

(** C7: a combatant is created with [0 <= current_hp <= max_hp], and
    [take_damage], [heal] and the special move of the enemy (the self-heal
    of the Arch-Lich among them) keep it so. *)
Theorem hp_within_bounds (nm ab : string) (st ag mg mh : Z)
    (c : Character) (damage amount : Z) (w : world) :
  0 <= mh ->
  hp_ok c ->
  0 <= amount ->
  hp_ok (player w) ->
  hp_ok (enemy w) ->
  hp_ok (Character_init nm st ag mg mh ab)
  /\ hp_ok (snd (take_damage c damage))
  /\ hp_ok (heal c amount)
  /\ exists w' : world,
       _enemy_special_move w = Ok tt w'
       /\ hp_ok (player w') /\ hp_ok (enemy w').
Proof.
  intros Hmh Hc Ham Hp He. repeat split.
  - exact Hmh.
  - cbn. lia.
  - apply take_damage_hp_ok, Hc.
  - apply take_damage_hp_ok, Hc.
  - apply heal_hp_ok; assumption.
  - apply heal_hp_ok; assumption.
  - destruct (always_returns _enemy_special_move w
                (budget_enemy_special_move False _)) as ([] & w' & Hrun).
    exists w'. split; [exact Hrun |].
    pose proof (keeps_enemy_special_move w (conj Hp He)) as H.
    unfold wp in H. rewrite Hrun in H. exact H.
Qed.

(** The Arch-Lich of the last stage. *)
Definition arch_lich : Character :=
  Character_init "Arch-Lich, Final Boss" 10 15 18 200 "Arcane Drain".

(** A Mage at full health under the Arcane Drain of a wounded Arch-Lich; the
    roll is 4. *)
Definition drained : world :=
  mkWorld (Mage "Merlin") (set_current_hp 190 arch_lich) (fun _ => 0) 0 [].

Lemma hp_within_bounds_witness :
  hp_ok (Character_init "Bandit King" 12 9 7 150 "King's Roar")
  /\ hp_ok (snd (take_damage wounded 10))
  /\ hp_ok (heal wounded 40)
  /\ exists w' : world,
       _enemy_special_move drained = Ok tt w'
       /\ hp_ok (player w') /\ hp_ok (enemy w').
Proof.
  apply (hp_within_bounds "Bandit King" "King's Roar" 12 9 7 150
           wounded 10 40 drained).
  - lia.
  - unfold hp_ok. cbn. lia.
  - lia.
  - unfold hp_ok. cbn. lia.
  - unfold hp_ok. cbn. lia.
Defined.

(** ** Defending *)

(** [_enemy_turn] clears the defend flag before anything else: it runs the
    same from a state where the player defends as from one where the player
    does not. *)
Lemma _enemy_turn_clears_defend (w : world) (b : bool) :
  _enemy_turn (set_player (set_is_defending b (player w)) w)
  = _enemy_turn (set_player (set_is_defending false (player w)) w).
Proof. reflexivity. Qed.

(** The player defends, then the Minor Bandit makes a standard attack: the
    die shows 3, the percentage rolls show 100. *)
Definition braced : world :=
  mkWorld (Warrior "Hero") minor_bandit
    (fun n => match n with O => 0 | 1%nat => 2 | _ => 99 end) 0 ["defend"].

(** C1 (the code at the failing input): the Warrior chooses Defend and the
    Minor Bandit then hits for 3 * 8 = 24.  The encounter stops at the next
    prompt with the Warrior at 120 - 24 = 96: the hit was not halved, the
    flag was cleared at the start of the enemy turn.  A defending Warrior
    hit for 24 by [take_damage] would be at 108. *)
Theorem defend_does_not_halve :
  exists w' : world,
    start_combat braced = EOFError w'
    /\ current_hp (player w') = 96
    /\ is_defending (player w') = false
    /\ current_hp
         (snd (take_damage (set_is_defending true (Warrior "Hero")) 24))
       = 108.
Proof.
  eexists. split; [vm_compute; reflexivity |].
  repeat split.
Qed.

(** The same with Shield Bash in place of Defend: the bash hits the bandit
    (die 1, 14 / 2 = 7), and the bandit's 24 is taken in full. *)
Definition bashing : world :=
  mkWorld (Warrior "Hero") minor_bandit
    (fun n => match n with 2%nat => 2 | O | 1%nat => 0 | _ => 99 end) 0
    ["magic"].

Lemma shield_bash_does_not_halve :
  exists w' : world,
    start_combat bashing = EOFError w'
    /\ current_hp (enemy w') = 53
    /\ current_hp (player w') = 96.
Proof.
  eexists. split; [vm_compute; reflexivity |].
  repeat split.
Qed.

(** ** Arcane Bolt *)















(** A Mage casts at the Minor Bandit: no miss (roll 100), die 1, no critical
    hit, no dodge. *)
Definition casting : world :=
  mkWorld (Mage "Merlin") minor_bandit
    (fun n => match n with 1%nat => 0 | _ => 99 end) 0 [].



(** ** The legendary weapons *)

(** The strength the standard attack fights with: the local
    [effective_strength] of [_player_attack]. *)
Definition effective_strength (p : Character) : Z :=
  strength p + weapon_boost p.

Lemma _player_attack_power (w : world) :
  _player_attack w
  = (_calculate_damage Player Enemy (effective_strength (player w)) false ;;;
     ret tt) w.
Proof. reflexivity. Qed.

(** C4 (what the code does): equipping the Elven Blade with no weapon
    equipped raises the strength the standard attack fights with by 10, not
    by 5: [use_elven_blade] adds 5 to [strength] and stores 5 in
    [weapon_boost], and [_player_attack] adds the two. *)
Theorem elven_blade_counts_twice (c : Character) :
  weapon_boost c = 0 ->
  strength (use_elven_blade c) = strength c + 5
  /\ weapon_boost (use_elven_blade c) = 5
  /\ effective_strength (use_elven_blade c) = effective_strength c + 10.
Proof.
  intros H. unfold effective_strength, use_elven_blade, truthy.
  rewrite H. cbn. lia.
Qed.

(** The Warrior goes from 14 to 24. *)
Lemma elven_blade_counts_twice_witness :
  strength (use_elven_blade (Warrior "Hero")) = 19
  /\ weapon_boost (use_elven_blade (Warrior "Hero")) = 5
  /\ effective_strength (use_elven_blade (Warrior "Hero")) = 14 + 10.
Proof.
  apply (elven_blade_counts_twice (Warrior "Hero")). reflexivity.
Defined.

(** The Arcane Focus is counted once where it is meant to count: the magic
    stat, the only thing Arcane Bolt reads, goes up by 5.  It also raises the
    strength of the standard attack by 5, through [weapon_boost]. *)
Lemma arcane_focus_counts_once (c : Character) :
  weapon_boost c = 0 ->
  magic (use_arcane_focus c) = magic c + 5
  /\ effective_strength (use_arcane_focus c) = effective_strength c + 5.
Proof.
  intros H. unfold effective_strength, use_arcane_focus, truthy.
  rewrite H. cbn. lia.
Qed.

(** The three stats the legendary weapons touch. *)
Definition boost_stats (c : Character) : Z * Z * Z :=
  (strength c, magic c, weapon_boost c).

(** C5 as the claim states it: the second [use] changes none of the three
    stats and returns a failure value. *)
Definition second_use_claim (r : item_ref) (c : Character) : Prop :=
  let once := snd (use (item_of r) c) in
  boost_stats (snd (use (item_of r) once)) = boost_stats once
  /\ fst (use (item_of r) once) = false.

(** C5, as the claim states it, fails: the second [use] of the Elven Blade
    on a Warrior returns [True]. *)
Lemma second_use_returns_true :
  fst (use (item_of ELVEN_BLADE)
         (snd (use (item_of ELVEN_BLADE) (Warrior "Hero")))) = true
  /\ ~ second_use_claim ELVEN_BLADE (Warrior "Hero").
Proof.
  split; [reflexivity |].
  intros [_ H]. vm_compute in H. discriminate H.
Qed.

(** After one [use] of a legendary weapon a weapon is equipped. *)
Lemma legendary_equipped (r : item_ref) (c : Character) :
  r = ELVEN_BLADE \/ r = ARCANE_FOCUS ->
  weapon_boost (snd (use (item_of r) c)) <> 0.
Proof.
  intros [-> | ->]; cbn [use item_of effect snd];
    unfold use_elven_blade, use_arcane_focus, truthy;
    destruct (weapon_boost c =? 0) eqn:E; cbn; lia.
Qed.

(** C5, amended: two calls of [use] for the Elven Blade or the Arcane Focus
    apply the boost once.  The second call leaves the combatant as the first
    left it, strength, magic and weapon boost included, and returns [True]
    like the first: [use] returns whether the item has an effect function,
    not whether the effect changed anything. *)
Theorem legendary_used_twice (r : item_ref) (c : Character) :
  r = ELVEN_BLADE \/ r = ARCANE_FOCUS ->
  let once := snd (use (item_of r) c) in
  use (item_of r) once = (true, once)
  /\ fst (use (item_of r) c) = true
  /\ (weapon_boost c = 0 ->
      weapon_boost once = 5
      /\ (r = ELVEN_BLADE ->
          strength once = strength c + 5 /\ magic once = magic c)
      /\ (r = ARCANE_FOCUS ->
          magic once = magic c + 5 /\ strength once = strength c)).
Proof.
  intros Hr once.
  pose proof (legendary_equipped r c Hr) as Heq. fold once in Heq.
  apply Z.eqb_neq in Heq.
  split; [| split].
  - destruct Hr as [-> | ->]; cbn [use item_of effect];
      unfold use_elven_blade, use_arcane_focus, truthy;
      rewrite Heq; reflexivity.
  - destruct Hr as [-> | ->]; reflexivity.
  - intros H. subst once.
    destruct Hr as [-> | ->]; cbn [use item_of effect snd];
      unfold use_elven_blade, use_arcane_focus, truthy;
      rewrite H; cbn [Z.eqb negb]; fields;
      repeat split; try discriminate; reflexivity.
Qed.

Lemma legendary_used_twice_witness :
  let once := snd (use (item_of ARCANE_FOCUS) (Mage "Merlin")) in
  use (item_of ARCANE_FOCUS) once = (true, once)
  /\ weapon_boost once = 5
  /\ magic once = 20
  /\ strength once = 6.
Proof.
  intros once.
  destruct (legendary_used_twice ARCANE_FOCUS (Mage "Merlin")
              (or_intror eq_refl)) as (Hsecond & _ & Hfirst).
  destruct (Hfirst eq_refl) as (Hboost & _ & Hfocus).
  destruct (Hfocus eq_refl) as (Hmagic & Hstrength).
  repeat split; assumption.
Defined.

(** In combat the second use does not get that far: [_player_use_item]
    checks [weapon_boost] itself, and asks again without calling [use] and
    without spending the turn. *)
Lemma equipped_weapon_asks_again (fuel : nat) (w : world)
    (item_name : string) (rest : list string) (r : item_ref) :
  inputs w = item_name :: rest ->
  is_permanent item_name = true ->
  inventory (player w) !! item_name = Some r ->
  weapon_boost (player w) <> 0 ->
  _player_use_item_loop (S fuel) w
  = _player_use_item_loop fuel
      (mkWorld (player w) (enemy w) (rng w) (rpos w) rest).
Proof.
  intros Hin Hperm Hinv Hboost.
  cbn [_player_use_item_loop]. unfold bind at 1. unfold input at 1.
  rewrite Hin.
  assert (Hcancel : String.eqb item_name "Cancel" = false).
  { unfold is_permanent in Hperm. apply orb_true_iff in Hperm.
    destruct Hperm as [E | E]; apply String.eqb_eq in E; subst;
      reflexivity. }
  rewrite Hcancel. unfold bind at 1. unfold read at 1.
  cbn [get player]. rewrite Hinv, Hperm.
  unfold truthy. apply Z.eqb_neq in Hboost. rewrite Hboost. reflexivity.
Qed.

(** ** King's Roar *)

(** The state with the player's buff replaced. *)
Definition with_buff (b : Z) (w : world) : world :=
  set_player (set_temp_defense_buff b (player w)) w.

(** The player's own attack does not read the player's buff: the enemy ends
    the same whatever the buff is, and the buff is still there afterwards. *)
Lemma _player_attack_ignores_buff (b : Z) (w : world) :
  exists w1 w2 : world,
    _player_attack (with_buff b w) = Ok tt w1
    /\ _player_attack w = Ok tt w2
    /\ enemy w1 = enemy w2
    /\ player w1 = set_temp_defense_buff b (player w2).
Proof.
  rewrite !_player_attack_power. unfold bind.
  rewrite !_calculate_damage_run.
  change (dodged (get Enemy (with_buff b w)) (with_buff b w))
    with (dodged (get Enemy w) w).
  destruct (dodged (get Enemy w) w).
  - eexists _, _. repeat split.
  - eexists _, _. repeat split.
Qed.

(** The ability clears the buff before anything else. *)
Lemma _player_magic_ignores_buff (b : Z) (w : world) :
  _player_magic (with_buff b w) = _player_magic w.
Proof. reflexivity. Qed.

(** C8: the King's Roar sets the player's buff to 5 and then makes a
    standard attack with the strength of the Bandit King as power stat.
    Unless the player dodges it, that attack takes the 5 off its own damage
    and leaves the buff at 0; after a dodge the 5 stays.  Whatever value the
    buff holds, the damage the player deals is the same: the standard attack
    does not read it and the class ability clears it first. *)
Theorem kings_roar (w : world) (b : Z) :
  name (enemy w) = "Bandit King" ->
  let base := base_damage (enemy w) (strength (enemy w)) w in
  let blocked :=
    if is_defending (player w) then Z.max 1 (base / 2) else base in
  _enemy_special_move w
  = (_calculate_damage Enemy Player (strength (enemy w)) false ;;; ret tt)
      (with_buff 5 w)
  /\ (exists w' : world,
        _enemy_special_move w = Ok tt w'
        /\ enemy w' = enemy w
        /\ if dodged (player w) w
           then player w' = set_temp_defense_buff 5 (player w)
           else temp_defense_buff (player w') = 0
                /\ current_hp (player w')
                   = Z.max 0 (current_hp (player w) - Z.max 1 (blocked - 5)))
  /\ (exists w1 w2 : world,
        _player_attack (with_buff b w) = Ok tt w1
        /\ _player_attack w = Ok tt w2
        /\ enemy w1 = enemy w2)
  /\ _player_magic (with_buff b w) = _player_magic w.
Proof.
  intros Hname base blocked.
  assert (Hroar :
    _enemy_special_move w
    = (_calculate_damage Enemy Player (strength (enemy w)) false ;;; ret tt)
        (with_buff 5 w)).
  { unfold _enemy_special_move. unfold bind at 1. unfold read at 1.
    cbn [get]. rewrite Hname. reflexivity. }
  split; [exact Hroar |]. split; [| split].
  - rewrite Hroar. unfold bind. rewrite _calculate_damage_run.
    change (dodged (get Player (with_buff 5 w)) (with_buff 5 w))
      with (dodged (player w) w).
    destruct (dodged (player w) w).
    + eexists. repeat split.
    + eexists. split; [reflexivity |]. split; [reflexivity |].
      cbn [put set_player player get with_buff].
      rewrite take_damage_buff, take_damage_hp. split; reflexivity.
  - destruct (_player_attack_ignores_buff b w) as (w1 & w2 & H1 & H2 & H3 & _).
    exists w1, w2. auto.
  - apply _player_magic_ignores_buff.
Qed.

(** The Bandit King of the second stage. *)
Definition bandit_king : Character :=
  Character_init "Bandit King" 12 9 7 150 "King's Roar".

(** The Roar and its attack on a Rogue: die 2, no critical hit, no dodge. *)
Definition roaring : world :=
  mkWorld (Rogue "Shade") bandit_king
    (fun n => match n with O => 1 | _ => 99 end) 0 [].

(** The attack of 2 * 12 = 24 lands as 19 and the buff is used up. *)
Lemma kings_roar_witness :
  exists w' : world,
    _enemy_special_move roaring = Ok tt w'
    /\ temp_defense_buff (player w') = 0
    /\ current_hp (player w') = 100 - (24 - 5).
Proof.
  destruct (kings_roar roaring 5 eq_refl) as (_ & (w' & Hrun & _ & Hhit) & _).
  exists w'. split; [exact Hrun |]. exact Hhit.
Defined.

(** ** Arcane Drain *)

(** C9: the Arcane Drain draws one roll between 4 and 10, hits the player
    for roll times magic through [take_damage] alone, and heals the Arch-Lich
    by half of what [take_damage] returned, rounded down, up to its
    [max_hp]. *)
Theorem arcane_drain (w : world) :
  name (enemy w) = "Arch-Lich, Final Boss" ->
  let r := roll 4 10 0 w in
  let hit := take_damage (player w) (r * magic (enemy w)) in
  let healed :=
    Z.min (max_hp (enemy w)) (current_hp (enemy w) + fst hit / 2) in
  4 <= r <= 10
  /\ _enemy_special_move w
     = Ok tt (mkWorld (snd hit) (set_current_hp healed (enemy w))
                (rng w) (S (rpos w)) (inputs w)).
Proof.
  intros Hname r hit healed. split; [apply roll_range; lia |].
  unfold _enemy_special_move. unfold bind at 1. unfold read at 1.
  cbn [get]. rewrite Hname. cbn [String.eqb Ascii.eqb Bool.eqb].
  unfold bind, randint, read, call, assign.
  cbn [get put set_player set_enemy player enemy rng rpos inputs].
  subst healed hit r. unfold roll. cbn [Nat.add].
  destruct (take_damage _ _) as [damage_taken p']. reflexivity.
Qed.

(** The Mage is hit for 4 * 18 = 72 and the Arch-Lich, at 190 of 200, heals
    36 and stops at 200. *)
Lemma arcane_drain_witness :
  4 <= roll 4 10 0 drained <= 10
  /\ exists w' : world,
       _enemy_special_move drained = Ok tt w'
       /\ current_hp (player w') = 90 - 72
       /\ current_hp (enemy w') = 200.
Proof.
  destruct (arcane_drain drained eq_refl) as [Hroll Hrun].
  split; [exact Hroll |].
  eexists. split; [exact Hrun |]. split; reflexivity.
Defined.

(** * Further properties of the combat code *)

(** ** [take_damage] and [heal] on their own *)

(** Every field [take_damage] does not assign. *)
Definition same_build (c c' : Character) : Prop :=
  name c' = name c
  /\ max_hp c' = max_hp c
  /\ strength c' = strength c
  /\ agility c' = agility c
  /\ magic c' = magic c
  /\ ability_name c' = ability_name c
  /\ inventory c' = inventory c
  /\ weapon_boost c' = weapon_boost c.

Lemma take_damage_same_build (c : Character) (damage : Z) :
  same_build c (snd (take_damage c damage)).
Proof. unfold same_build. take_damage_cases c; repeat split. Qed.

(** X1: The defend flag and the buff are used up by one hit, whether they
    changed the damage or not: after [take_damage] the flag is off, a
    positive buff is 0 (another value stays), and nothing but the hit
    points, the flag and the buff has changed. *)
Theorem take_damage_uses_up (c : Character) (damage : Z) :
  is_defending (snd (take_damage c damage)) = false
  /\ temp_defense_buff (snd (take_damage c damage))
     = Z.min 0 (temp_defense_buff c)
  /\ same_build c (snd (take_damage c damage)).
Proof.
  split; [apply take_damage_is_defending |].
  split; [apply take_damage_buff |].
  apply take_damage_same_build.
Qed.

(** X2: Mitigation never adds damage.  With a buff that is not negative, what
    [take_damage] returns is between 1 and [max 1 damage]; when defending it
    is at most [max 1 (damage // 2)]; and a harder hit never returns
    less. *)
Theorem take_damage_bounds (c : Character) (damage damage' : Z) :
  0 <= temp_defense_buff c ->
  damage <= damage' ->
  1 <= fst (take_damage c damage) <= Z.max 1 damage
  /\ (is_defending c = true ->
      fst (take_damage c damage) <= Z.max 1 (damage / 2))
  /\ fst (take_damage c damage) <= fst (take_damage c damage').
Proof.
  intros Hbuff Hle. rewrite !take_damage_fst. unfold mitigated.
  pose proof (Z.div_le_mono damage damage' 2 ltac:(lia) Hle) as Hmono.
  assert (Hhalf : damage / 2 <= Z.max 0 damage).
  { destruct (Z.le_gt_cases 0 damage) as [Hpos | Hneg].
    - pose proof (Z.div_le_upper_bound damage 2 damage ltac:(lia)
                    ltac:(lia)). lia.
    - pose proof (Z.div_lt_upper_bound damage 2 0 ltac:(lia) ltac:(lia)).
      lia. }
  destruct (is_defending c); repeat split; intros; lia.
Qed.

(** A defending combatant under a Scroll of Protection is hit for 40 and
    takes 5; hit for 50 it takes 10. *)
Lemma take_damage_bounds_witness :
  let c := set_temp_defense_buff 15 (set_is_defending true (Warrior "Hero")) in
  1 <= fst (take_damage c 40) <= Z.max 1 40
  /\ (is_defending c = true -> fst (take_damage c 40) <= Z.max 1 (40 / 2))
  /\ fst (take_damage c 40) <= fst (take_damage c 50).
Proof.
  intros c. apply (take_damage_bounds c 40 50).
  - vm_compute. discriminate.
  - lia.
Defined.

(** X3: [heal] with an amount that is not negative never lowers the hit points,
    stops at [max_hp] for a combatant that was not above it, and two heals
    in a row are one heal of the sum. *)
Theorem heal_caps_and_composes (c : Character) (a b : Z) :
  0 <= a ->
  0 <= b ->
  current_hp c <= max_hp c ->
  current_hp c <= current_hp (heal c a) <= max_hp c
  /\ current_hp (heal c a) = Z.min (max_hp c) (current_hp c + a)
  /\ heal (heal c a) b = heal c (a + b).
Proof.
  intros Ha Hb Hc. unfold heal. fields. repeat split; try lia.
  unfold set_current_hp. fields. f_equal. lia.
Qed.

(** Two Health Potions on a Warrior at 50 of 120: 90, then 120. *)
Lemma heal_caps_and_composes_witness :
  let c := set_current_hp 50 (Warrior "Hero") in
  current_hp c <= current_hp (heal c 40) <= max_hp c
  /\ current_hp (heal c 40) = Z.min (max_hp c) (current_hp c + 40)
  /\ heal (heal c 40) 40 = heal c (40 + 40).
Proof.
  intros c. apply (heal_caps_and_composes c 40 40).
  - lia.
  - lia.
  - vm_compute. discriminate.
Defined.

(** X4: A Scroll of Protection takes 15 off the next hit and nothing off the
    one after: the hit that follows it returns [max 1 (d - 15)], with [d] the
    damage after the defend halving, and a second hit is mitigated as if no
    scroll had been read. *)
Theorem scroll_absorbs_once (c : Character) (damage damage' : Z) :
  let protected := use_scroll_of_protection c in
  let after := snd (take_damage protected damage) in
  fst (take_damage protected damage)
  = Z.max 1
      ((if is_defending c then Z.max 1 (damage / 2) else damage) - 15)
  /\ temp_defense_buff after = 0
  /\ fst (take_damage after damage') = Z.max 1 damage'.
Proof.
  intros protected after. subst after protected.
  rewrite !take_damage_fst. unfold mitigated.
  rewrite take_damage_buff, take_damage_is_defending.
  unfold use_scroll_of_protection. fields.
  repeat split; lia.
Qed.

(** ** Calls that always return *)

(** [sure m Q w]: from [w], the call [m] returns, with [Q]. *)
Definition sure {A : Type} (m : M A) (Q : A -> world -> Prop) (w : world)
  : Prop :=
  exists (a : A) (w' : world), m w = Ok a w' /\ Q a w'.

Lemma sure_ret {A : Type} (a : A) (Q : A -> world -> Prop) (w : world) :
  Q a w -> sure (ret a) Q w.
Proof. intros H. exists a, w. split; [reflexivity | exact H]. Qed.

Lemma sure_bind {A B : Type} (m : M A) (k : A -> M B)
    (Q : B -> world -> Prop) (w : world) :
  sure m (fun a w' => sure (k a) Q w') w -> sure (bind m k) Q w.
Proof.
  intros (a & w1 & Hm & b & w2 & Hk & HQ).
  exists b, w2. split; [| exact HQ]. unfold bind. rewrite Hm. exact Hk.
Qed.

Lemma sure_mono {A : Type} (m : M A) (Q1 Q2 : A -> world -> Prop)
    (w : world) :
  sure m Q1 w -> (forall a w', Q1 a w' -> Q2 a w') -> sure m Q2 w.
Proof. intros (a & w' & Hm & HQ) H. exists a, w'. auto. Qed.

Lemma sure_read (x : who) (Q : Character -> world -> Prop) (w : world) :
  Q (get x w) w -> sure (read x) Q w.
Proof. intros H. exists (get x w), w. split; [reflexivity | exact H]. Qed.

Lemma sure_assign (x : who) (f : Character -> Character)
    (Q : unit -> world -> Prop) (w : world) :
  Q tt (put x (f (get x w)) w) -> sure (assign x f) Q w.
Proof. intros H. eexists _, _. split; [reflexivity | exact H]. Qed.

Lemma sure_call {A : Type} (x : who) (f : Character -> A * Character)
    (Q : A -> world -> Prop) (w : world) :
  Q (fst (f (get x w))) (put x (snd (f (get x w))) w) ->
  sure (call x f) Q w.
Proof.
  intros H. unfold sure, call. destruct (f (get x w)) as [a c].
  exists a, (put x c w). split; [reflexivity | exact H].
Qed.

Lemma sure_randint (a b : Z) (Q : Z -> world -> Prop) (w : world) :
  Q (roll a b 0 w) (drawn 1 w) -> sure (randint a b) Q w.
Proof. intros H. eexists _, _. split; [reflexivity | exact H]. Qed.

Lemma sure_random (Q : Z -> world -> Prop) (w : world) :
  Q (rng w (rpos w) mod 2 ^ 53) (drawn 1 w) -> sure random Q w.
Proof. intros H. eexists _, _. split; [reflexivity | exact H]. Qed.

Lemma sure_calculate_damage (a d : who) (s : Z) (m : bool)
    (Q : Z -> world -> Prop) (w : world) :
  (if dodged (get d w) w
   then Q 0 (drawn 3 w)
   else Q (fst (take_damage (get d w) (base_damage (get a w) s w)))
          (put d (snd (take_damage (get d w) (base_damage (get a w) s w)))
             (drawn 3 w))) ->
  sure (_calculate_damage a d s m) Q w.
Proof.
  intros H. unfold sure. rewrite _calculate_damage_run.
  destruct (dodged (get d w) w); eexists _, _; split; try reflexivity;
    exact H.
Qed.

(** One statement of the code at a time. *)
Ltac sure_step :=
  lazymatch goal with
  | |- sure (if ?b then _ else _) _ _ => destruct b eqn:?
  | |- sure (bind _ _) _ _ => apply sure_bind
  | |- sure (ret _) _ _ => apply sure_ret
  | |- sure (read _) _ _ => apply sure_read
  | |- sure (randint _ _) _ _ => apply sure_randint
  | |- sure random _ _ => apply sure_random
  | |- sure (assign _ _) _ _ => apply sure_assign
  | |- sure (call _ _) _ _ => apply sure_call
  | |- sure (_calculate_damage _ _ _ _) _ _ => apply sure_calculate_damage
  | |- if ?b then _ else _ => destruct b eqn:?
  end.

(** Reading the two combatants out of a state built by the steps. *)
Ltac chars :=
  cbn [get put set_player set_enemy drawn player enemy rng rpos inputs] in *.

(** What one hit does to the hit points. *)
Lemma take_damage_hp_le (c : Character) (damage : Z) :
  0 <= current_hp c ->
  current_hp (snd (take_damage c damage)) <= current_hp c.
Proof.
  intros H. rewrite take_damage_hp.
  pose proof (mitigated_pos c damage). lia.
Qed.

Lemma take_damage_hp_lt (c : Character) (damage : Z) :
  0 < current_hp c ->
  current_hp (snd (take_damage c damage)) < current_hp c.
Proof.
  intros H. rewrite take_damage_hp.
  pose proof (mitigated_pos c damage). lia.
Qed.

(** ** The class abilities *)

(** X5: Whatever the ability is, using it returns, reads no input, leaves the
    player's buff at 0 and the player's hit points as they were, and does not
    raise the hit points of an enemy that is not below 0: a Scroll of
    Protection read before the ability is lost. *)
Theorem _player_magic_effects (w : world) :
  0 <= current_hp (enemy w) ->
  exists w' : world,
    _player_magic w = Ok tt w'
    /\ temp_defense_buff (player w') = 0
    /\ current_hp (player w') = current_hp (player w)
    /\ current_hp (enemy w') <= current_hp (enemy w)
    /\ inputs w' = inputs w.
Proof.
  intros He.
  cut (sure _player_magic
         (fun _ w' =>
            temp_defense_buff (player w') = 0
            /\ current_hp (player w') = current_hp (player w)
            /\ current_hp (enemy w') <= current_hp (enemy w)
            /\ inputs w' = inputs w) w).
  { intros ([] & w' & Hrun & H). exists w'. auto. }
  unfold _player_magic.
  repeat (sure_step; chars; fields);
    repeat split; try reflexivity; try lia;
    apply take_damage_hp_le; exact He.
Qed.

Lemma _player_magic_effects_witness :
  exists w' : world,
    _player_magic casting = Ok tt w'
    /\ temp_defense_buff (player w') = 0
    /\ current_hp (player w') = current_hp (player casting)
    /\ current_hp (enemy w') <= current_hp (enemy casting)
    /\ inputs w' = inputs casting.
Proof.
  apply (_player_magic_effects casting). vm_compute. discriminate.
Defined.

(** X6: Shield Bash and Sneak Attack cannot be dodged and cannot miss: against
    an enemy with hit points left they always take at least one, whatever its
    agility and whatever the rolls are.  No dodge roll is drawn (one roll for
    the bash, two for the sneak attack), and the bash leaves the player
    defending. *)
Theorem bash_and_sneak_always_hit (w : world) :
  ability_name (player w) = "Shield Bash"
  \/ ability_name (player w) = "Sneak Attack" ->
  0 < current_hp (enemy w) ->
  exists w' : world,
    _player_magic w = Ok tt w'
    /\ current_hp (enemy w') < current_hp (enemy w)
    /\ (ability_name (player w) = "Shield Bash" ->
        is_defending (player w') = true /\ rpos w' = (1 + rpos w)%nat)
    /\ (ability_name (player w) = "Sneak Attack" ->
        is_defending (player w') = is_defending (player w)
        /\ rpos w' = (2 + rpos w)%nat).
Proof.
  intros Hab He.
  cut (sure _player_magic
         (fun _ w' =>
            current_hp (enemy w') < current_hp (enemy w)
            /\ (ability_name (player w) = "Shield Bash" ->
                is_defending (player w') = true
                /\ rpos w' = (1 + rpos w)%nat)
            /\ (ability_name (player w) = "Sneak Attack" ->
                is_defending (player w') = is_defending (player w)
                /\ rpos w' = (2 + rpos w)%nat)) w).
  { intros ([] & w' & Hrun & H). exists w'. auto. }
  unfold _player_magic.
  apply sure_bind, sure_assign. chars.
  apply sure_bind, sure_read. chars. fields.
  destruct Hab as [Hab | Hab]; rewrite Hab;
    cbn [String.eqb Ascii.eqb Bool.eqb];
    repeat (sure_step; chars; fields);
    (split; [apply take_damage_hp_lt; exact He |]);
    split; intros; try discriminate; split; reflexivity.
Qed.

(** A Rogue strikes the Arch-Lich, the most agile enemy. *)
Definition sneaking : world :=
  mkWorld (Rogue "Shade") arch_lich (fun _ => 0) 0 [].

Lemma bash_and_sneak_always_hit_witness :
  exists w' : world,
    _player_magic sneaking = Ok tt w'
    /\ current_hp (enemy w') < 200
    /\ rpos w' = 2%nat.
Proof.
  destruct (bash_and_sneak_always_hit sneaking (or_intror eq_refl) eq_refl)
    as (w' & Hrun & Hhp & _ & Hsneak).
  exists w'. split; [exact Hrun |]. split; [exact Hhp |].
  apply (Hsneak eq_refl).
Defined.

(** X7: An ability that deals nothing still spends the buff.  A missed Arcane
    Bolt (miss roll 10 or less) draws that one roll and changes nothing but
    the player's buff; an ability name that is none of the three draws
    nothing at all. *)
Theorem ability_without_damage (w : world) :
  (ability_name (player w) = "Arcane Bolt" /\ roll 1 100 0 w <= 10)
  \/ (ability_name (player w) <> "Shield Bash"
      /\ ability_name (player w) <> "Arcane Bolt"
      /\ ability_name (player w) <> "Sneak Attack") ->
  _player_magic w
  = Ok tt (if String.eqb (ability_name (player w)) "Arcane Bolt"
           then drawn 1 (with_buff 0 w)
           else with_buff 0 w).
Proof.
  intros [[Hab Hroll] | (H1 & H2 & H3)].
  - unfold _player_magic, bind, assign, read. chars. fields.
    rewrite Hab. cbn [String.eqb Ascii.eqb Bool.eqb].
    unfold randint, roll in *. chars. cbn [Nat.add] in Hroll.
    apply Z.leb_le in Hroll. rewrite Hroll. reflexivity.
  - apply String.eqb_neq in H1, H2, H3.
    unfold _player_magic, bind, assign, read. chars. fields.
    rewrite H1, H2, H3. reflexivity.
Qed.

(** A Mage misses the Minor Bandit: the miss roll is 1. *)
Definition fizzling : world :=
  mkWorld (use_scroll_of_protection (Mage "Merlin")) minor_bandit
    (fun _ => 0) 0 [].

Lemma ability_without_damage_witness :
  _player_magic fizzling = Ok tt (drawn 1 (with_buff 0 fizzling)).
Proof.
  apply (ability_without_damage fizzling).
  left. split; [reflexivity | vm_compute; discriminate].
Defined.

(** ** The enemy's moves *)

(** X8: The Quick Strike of the Minor Bandit goes past the defend flag and hands
    it back: the damage is one roll between 1 and 4 times the bandit's
    strength, less the player's buff (at least 1), not halved even for a
    defending player, whose flag is as it was afterwards.  The buff is used
    up as by any hit. *)
Theorem quick_strike (w : world) :
  name (enemy w) = "Minor Bandit" ->
  let r := roll 1 4 0 w in
  let damage :=
    Z.max 1 (r * strength (enemy w) - temp_defense_buff (player w)) in
  1 <= r <= 4
  /\ exists w' : world,
       _enemy_special_move w = Ok tt w'
       /\ enemy w' = enemy w
       /\ current_hp (player w')
          = Z.max 0 (current_hp (player w) - damage)
       /\ is_defending (player w') = is_defending (player w)
       /\ temp_defense_buff (player w')
          = Z.min 0 (temp_defense_buff (player w))
       /\ rpos w' = (1 + rpos w)%nat.
Proof.
  intros Hname r damage. split; [apply roll_range; lia |].
  cut (sure _enemy_special_move
         (fun _ w' =>
            enemy w' = enemy w
            /\ current_hp (player w')
               = Z.max 0 (current_hp (player w) - damage)
            /\ is_defending (player w') = is_defending (player w)
            /\ temp_defense_buff (player w')
               = Z.min 0 (temp_defense_buff (player w))
            /\ rpos w' = (1 + rpos w)%nat) w).
  { intros ([] & w' & Hrun & H). exists w'. auto. }
  unfold _enemy_special_move.
  apply sure_bind, sure_read. chars. rewrite Hname.
  cbn [String.eqb Ascii.eqb Bool.eqb].
  repeat (sure_step; chars; fields).
  rewrite take_damage_hp, take_damage_buff. unfold mitigated. fields.
  repeat split.
Qed.

(** The bandit strikes a defending Warrior: roll 4, damage 32 and not 16. *)
Definition struck : world :=
  mkWorld (set_is_defending true (Warrior "Hero")) minor_bandit
    (fun _ => 3) 0 [].

Lemma quick_strike_witness :
  exists w' : world,
    _enemy_special_move struck = Ok tt w'
    /\ current_hp (player w') = 120 - 32
    /\ is_defending (player w') = true.
Proof.
  destruct (quick_strike struck eq_refl)
    as (_ & w' & Hrun & _ & Hhp & Hflag & _).
  exists w'. split; [exact Hrun |]. split; [exact Hhp | exact Hflag].
Defined.

(** X9: An enemy turn always returns and reads no input.  It never raises the
    player's hit points and never lowers the enemy's; only the Arch-Lich
    changes at all in its own turn; and the player is never defending when
    the turn is over. *)
Theorem _enemy_turn_effects (w : world) :
  0 <= current_hp (player w) ->
  current_hp (enemy w) <= max_hp (enemy w) ->
  exists w' : world,
    _enemy_turn w = Ok tt w'
    /\ current_hp (player w') <= current_hp (player w)
    /\ current_hp (enemy w) <= current_hp (enemy w')
    /\ is_defending (player w') = false
    /\ inputs w' = inputs w
    /\ (name (enemy w) <> "Arch-Lich, Final Boss" -> enemy w' = enemy w).
Proof.
  intros Hp He.
  cut (sure _enemy_turn
         (fun _ w' =>
            current_hp (player w') <= current_hp (player w)
            /\ current_hp (enemy w) <= current_hp (enemy w')
            /\ is_defending (player w') = false
            /\ inputs w' = inputs w
            /\ (name (enemy w) <> "Arch-Lich, Final Boss" ->
                enemy w' = enemy w)) w).
  { intros ([] & w' & Hrun & H). exists w'. auto. }
  unfold _enemy_turn, _enemy_special_move.
  repeat (sure_step; chars; fields);
    repeat match goal with
      | H : String.eqb _ _ = true |- _ => apply String.eqb_eq in H
      end;
    rewrite ?take_damage_is_defending;
    repeat split; try reflexivity; try lia; try contradiction;
    try match goal with
      | |- current_hp (snd (take_damage ?c ?d)) <= _ =>
          exact (take_damage_hp_le c d Hp)
      end.
  match goal with
  | |- context [fst (take_damage ?c ?d)] =>
      pose proof (mitigated_pos c d) as Hd; rewrite take_damage_fst;
      pose proof (Z.div_pos (mitigated c d) 2 ltac:(lia) ltac:(lia)) as Hh;
      revert Hh; generalize (mitigated c d / 2)
  end.
  lia.
Qed.

Lemma _enemy_turn_effects_witness :
  exists w' : world,
    _enemy_turn drained = Ok tt w'
    /\ current_hp (player w') <= 90
    /\ 190 <= current_hp (enemy w')
    /\ is_defending (player w') = false
    /\ inputs w' = [].
Proof.
  destruct (_enemy_turn_effects drained) as (w' & H1 & H2 & H3 & H4 & H5 & _).
  - vm_compute. discriminate.
  - vm_compute. discriminate.
  - exists w'. auto.
Defined.

(** ** The loops without their budget *)

(** One turn of each loop, with what the next turn does left open. *)
Definition _player_use_item_body (again : M (option bool))
  : M (option bool) :=
  item_name <- input ;;
  if String.eqb item_name "Cancel" then ret (Some false)
  else
    p <- read Player ;;
    match inventory p !! item_name with
    | Some item =>
        if is_permanent item_name && truthy (weapon_boost p)
        then again
        else
          used <- call Player (use (item_of item)) ;;
          if used then
            (if negb (is_permanent item_name)
             then
               assign Player
                 (fun c => set_inventory (delete item_name (inventory c)) c)
             else ret tt) ;;;
            ret (Some true)
          else again
    | None => again
    end.

Definition player_turn_body (use_item : M (option bool)) (again : M unit)
  : M unit :=
  user_input <- input ;;
  if String.eqb user_input "item" then
    r <- use_item ;;
    if is_true_result r then ret tt else again
  else if String.eqb user_input "stats" then again
  else if String.eqb user_input "attack" then _player_attack
  else if String.eqb user_input "defend" then _player_defend
  else if String.eqb user_input "magic" then _player_magic
  else again.

Definition start_combat_body (turn : M unit) (again : M bool) : M bool :=
  p <- read Player ;;
  e <- read Enemy ;;
  if (0 <? current_hp p) && (0 <? current_hp e) then
    turn ;;;
    p <- read Player ;;
    if current_hp p <=? 0 then ret false
    else
      e <- read Enemy ;;
      if current_hp e <=? 0 then ret true
      else
        _enemy_turn ;;;
        again
  else ret (0 <? current_hp p).

Lemma _player_use_item_loop_S (fuel : nat) :
  _player_use_item_loop (S fuel)
  = _player_use_item_body (_player_use_item_loop fuel).
Proof. reflexivity. Qed.

Lemma player_turn_S (fuel : nat) :
  player_turn (S fuel)
  = player_turn_body (_player_use_item fuel) (player_turn fuel).
Proof. reflexivity. Qed.

Lemma start_combat_loop_S (fuel : nat) :
  start_combat_loop (S fuel)
  = start_combat_body (player_turn (S fuel)) (start_combat_loop fuel).
Proof. reflexivity. Qed.

(** [below m m']: [m'] does what [m] does, and may go on where the budget
    stops [m]. *)
Definition below {A : Type} (m m' : M A) : Prop :=
  forall w, m w = OutOfFuel \/ m w = m' w.

Lemma below_refl {A : Type} (m : M A) : below m m.
Proof. intros w. right. reflexivity. Qed.

Lemma below_trans {A : Type} (m1 m2 m3 : M A) :
  below m1 m2 -> below m2 m3 -> below m1 m3.
Proof.
  intros H12 H23 w.
  destruct (H12 w) as [E | E]; [left; exact E |].
  destruct (H23 w) as [E' | E']; [left | right]; congruence.
Qed.

Lemma below_bind {A B : Type} (m m' : M A) (k k' : A -> M B) :
  below m m' -> (forall a, below (k a) (k' a)) ->
  below (bind m k) (bind m' k').
Proof.
  intros Hm Hk w. unfold bind.
  destruct (Hm w) as [E | E]; rewrite E; [left; reflexivity |].
  destruct (m' w) as [a w' | w' |];
    [apply Hk | right; reflexivity | left; reflexivity].
Qed.

Ltac below_step :=
  lazymatch goal with
  | |- below ?m ?m => apply below_refl
  | |- below (if ?b then _ else _) (if ?b then _ else _) => destruct b
  | |- below (match ?o with Some _ => _ | None => _ end) _ => destruct o
  | |- below (bind _ _) (bind _ _) => apply below_bind; [| intros ?]
  | |- below _ _ => assumption
  end.

Lemma _player_use_item_body_below (again again' : M (option bool)) :
  below again again' ->
  below (_player_use_item_body again) (_player_use_item_body again').
Proof. intros H. unfold _player_use_item_body. repeat below_step. Qed.

Lemma player_turn_body_below (use_item use_item' : M (option bool))
    (again again' : M unit) :
  below use_item use_item' -> below again again' ->
  below (player_turn_body use_item again)
        (player_turn_body use_item' again').
Proof. intros H1 H2. unfold player_turn_body. repeat below_step. Qed.

Lemma start_combat_body_below (turn turn' : M unit) (again again' : M bool) :
  below turn turn' -> below again again' ->
  below (start_combat_body turn again) (start_combat_body turn' again').
Proof. intros H1 H2. unfold start_combat_body. repeat below_step. Qed.

Lemma _player_use_item_loop_below (fuel : nat) :
  below (_player_use_item_loop fuel) (_player_use_item_loop (S fuel)).
Proof.
  induction fuel as [| fuel IH]; [intros w; left; reflexivity |].
  rewrite (_player_use_item_loop_S (S fuel)).
  rewrite (_player_use_item_loop_S fuel) at 1.
  apply _player_use_item_body_below, IH.
Qed.

Lemma _player_use_item_below (fuel : nat) :
  below (_player_use_item fuel) (_player_use_item (S fuel)).
Proof.
  unfold _player_use_item. repeat below_step.
  apply _player_use_item_loop_below.
Qed.

Lemma player_turn_below (fuel : nat) :
  below (player_turn fuel) (player_turn (S fuel)).
Proof.
  induction fuel as [| fuel IH]; [intros w; left; reflexivity |].
  rewrite (player_turn_S (S fuel)). rewrite (player_turn_S fuel) at 1.
  apply player_turn_body_below; [apply _player_use_item_below | apply IH].
Qed.

Lemma start_combat_loop_below (fuel : nat) :
  below (start_combat_loop fuel) (start_combat_loop (S fuel)).
Proof.
  induction fuel as [| fuel IH]; [intros w; left; reflexivity |].
  rewrite (start_combat_loop_S (S fuel)).
  rewrite (start_combat_loop_S fuel) at 1.
  apply start_combat_body_below; [apply player_turn_below | apply IH].
Qed.

(** A larger budget changes nothing once the budget is enough. *)
Lemma below_le {A : Type} (loop : nat -> M A) (fuel fuel' : nat) :
  (forall n, below (loop n) (loop (S n))) ->
  (fuel <= fuel')%nat -> below (loop fuel) (loop fuel').
Proof.
  intros Hstep Hle. induction Hle as [| n Hle IH]; [apply below_refl |].
  eapply below_trans; [exact IH | apply Hstep].
Qed.

(** The loops with a budget that is always enough: one more turn than there
    are lines (as [start_combat] has it). *)
Definition use_item_loop : M (option bool) :=
  fun w => _player_use_item_loop (S (length (inputs w))) w.

Definition use_item : M (option bool) :=
  fun w => _player_use_item (S (length (inputs w))) w.

Definition turn : M unit :=
  fun w => player_turn (S (length (inputs w))) w.

Lemma enough {A : Type} (loop : nat -> M A) (after : nat -> nat)
    (fuel : nat) (w : world) :
  (forall n, below (loop n) (loop (S n))) ->
  (forall n, budget True n (after n) (loop n)) ->
  (length (inputs w) < fuel)%nat ->
  loop fuel w = loop (S (length (inputs w))) w.
Proof.
  intros Hstep Hbudget Hw.
  destruct (below_le loop (S (length (inputs w))) fuel Hstep ltac:(lia) w)
    as [E | E]; [| symmetry; exact E].
  pose proof (Hbudget (S (length (inputs w))) w ltac:(lia)) as H.
  unfold runs in H. rewrite E in H. contradiction.
Qed.

Lemma _player_use_item_loop_enough (fuel : nat) (w : world) :
  (length (inputs w) < fuel)%nat ->
  _player_use_item_loop fuel w = use_item_loop w.
Proof.
  apply (enough _player_use_item_loop pred).
  - apply _player_use_item_loop_below.
  - apply budget_player_use_item_loop.
Qed.

Lemma _player_use_item_enough (fuel : nat) (w : world) :
  (length (inputs w) < fuel)%nat -> _player_use_item fuel w = use_item w.
Proof.
  apply (enough _player_use_item (fun n => n)).
  - apply _player_use_item_below.
  - apply budget_player_use_item.
Qed.

Lemma player_turn_enough (fuel : nat) (w : world) :
  (length (inputs w) < fuel)%nat -> player_turn fuel w = turn w.
Proof.
  apply (enough player_turn pred).
  - apply player_turn_below.
  - apply budget_player_turn.
Qed.

Lemma start_combat_loop_enough (fuel : nat) (w : world) :
  (length (inputs w) < fuel)%nat -> start_combat_loop fuel w = start_combat w.
Proof.
  apply (enough start_combat_loop (fun n => n)).
  - apply start_combat_loop_below.
  - apply budget_start_combat_loop.
Qed.

(** [agree n m m']: the two calls do the same from every state with fewer
    than [n] lines left. *)
Definition agree (n : nat) {A : Type} (m m' : M A) : Prop :=
  forall w, (length (inputs w) < n)%nat -> m w = m' w.

Lemma agree_refl {A : Type} (n : nat) (m : M A) : agree n m m.
Proof. intros w _. reflexivity. Qed.

Lemma agree_bind {A B : Type} (n n1 : nat) (m m' : M A) (k k' : A -> M B) :
  agree n m m' ->
  budget True n n1 m' ->
  (forall a, agree n1 (k a) (k' a)) ->
  agree n (bind m k) (bind m' k').
Proof.
  intros Hm Hb Hk w Hw. unfold bind. rewrite (Hm w Hw).
  specialize (Hb w Hw). unfold runs in Hb.
  destruct (m' w) as [a w' | w' |]; [apply Hk, Hb | reflexivity ..].
Qed.

Lemma agree_input_bind {B : Type} (n : nat) (k k' : string -> M B) :
  (forall line, agree n (k line) (k' line)) ->
  agree (S n) (bind input k) (bind input k').
Proof.
  intros Hk w Hw. unfold bind, input.
  destruct (inputs w) as [| line rest] eqn:E; [reflexivity |].
  apply Hk. cbn in *. lia.
Qed.

Ltac agree_step :=
  lazymatch goal with
  | |- agree _ ?m ?m => apply agree_refl
  | |- agree _ (if ?b then _ else _) (if ?b then _ else _) => destruct b
  | |- agree _ (match ?o with Some _ => _ | None => _ end) _ => destruct o
  | |- agree _ (bind input _) (bind input _) =>
      apply agree_input_bind; intros ?
  | |- agree _ (bind ?m _) (bind ?m _) =>
      eapply agree_bind;
      [apply agree_refl | solve [repeat budget_step] | intros ?]
  | |- agree _ _ _ => assumption
  end.

Lemma _player_use_item_body_agree (n : nat) (again again' : M (option bool)) :
  agree n again again' ->
  agree (S n) (_player_use_item_body again) (_player_use_item_body again').
Proof. intros H. unfold _player_use_item_body. repeat agree_step. Qed.

Lemma player_turn_body_agree (n : nat) (use_item use_item' : M (option bool))
    (again again' : M unit) :
  agree n use_item use_item' ->
  budget True n n use_item' ->
  agree n again again' ->
  agree (S n) (player_turn_body use_item again)
              (player_turn_body use_item' again').
Proof.
  intros Hu Hb Ha. unfold player_turn_body.
  apply agree_input_bind. intros user_input.
  destruct (String.eqb user_input "item"); [| repeat agree_step].
  eapply agree_bind; [exact Hu | exact Hb | intros r].
  repeat agree_step.
Qed.

Lemma start_combat_body_agree (n n1 : nat) (turn turn' : M unit)
    (again again' : M bool) :
  agree n turn turn' ->
  budget True n n1 turn' ->
  agree n1 again again' ->
  agree n (start_combat_body turn again) (start_combat_body turn' again').
Proof.
  intros Ht Hb Ha. unfold start_combat_body.
  do 2 agree_step. agree_step; [| agree_step].
  eapply agree_bind; [exact Ht | exact Hb | intros _].
  do 2 agree_step; [agree_step |]. do 2 agree_step; [agree_step |].
  eapply agree_bind;
    [apply agree_refl | apply budget_enemy_turn | intros _; exact Ha].
Qed.

Lemma budget_use_item (n : nat) : budget True n n use_item.
Proof.
  intros w Hw. unfold use_item.
  pose proof (budget_player_use_item (S (length (inputs w))) w ltac:(lia))
    as H.
  unfold runs in *. destruct (_player_use_item _ w); [lia | exact H ..].
Qed.

Lemma budget_turn (n : nat) : budget True n (pred n) turn.
Proof.
  intros w Hw. unfold turn.
  pose proof (budget_player_turn (S (length (inputs w))) w ltac:(lia)) as H.
  unfold runs in *. cbn [pred] in H.
  destruct (player_turn _ w); [lia | exact H ..].
Qed.

(** The loops satisfy the equations of their source text. *)
Lemma use_item_loop_unfold (w : world) :
  use_item_loop w = _player_use_item_body use_item_loop w.
Proof.
  unfold use_item_loop at 1. rewrite _player_use_item_loop_S.
  apply (_player_use_item_body_agree (length (inputs w))); [| lia].
  intros w1 H1. apply _player_use_item_loop_enough, H1.
Qed.

Lemma use_item_unfold (w : world) :
  use_item w
  = (if bool_decide (inventory (player w) = ∅)
     then Ok None w
     else use_item_loop w).
Proof.
  unfold use_item, _player_use_item, bind, read. cbn [get].
  destruct (bool_decide _); reflexivity.
Qed.

Lemma turn_unfold (w : world) :
  turn w = player_turn_body use_item turn w.
Proof.
  unfold turn at 1. rewrite player_turn_S.
  apply (player_turn_body_agree (length (inputs w))); [| | | lia].
  - intros w1 H1. apply _player_use_item_enough, H1.
  - apply budget_use_item.
  - intros w1 H1. apply player_turn_enough, H1.
Qed.

Lemma start_combat_unfold (w : world) :
  start_combat w = start_combat_body turn start_combat w.
Proof.
  unfold start_combat at 1. rewrite start_combat_loop_S.
  apply (start_combat_body_agree (S (length (inputs w)))
           (length (inputs w))); [| | | lia].
  - intros w1 H1. apply player_turn_enough, H1.
  - apply (budget_turn (S (length (inputs w)))).
  - intros w1 H1. apply start_combat_loop_enough, H1.
Qed.

(** ** What spends the player's turn *)

(** The state with other lines left to read. *)
Definition with_inputs (lines : list string) (w : world) : world :=
  mkWorld (player w) (enemy w) (rng w) (rpos w) lines.

(** The commands that can spend the turn. *)
Definition acts (line : string) : bool :=
  String.eqb line "item" || String.eqb line "attack"
  || String.eqb line "defend" || String.eqb line "magic".

Lemma idle_line (w : world) (line : string) (rest : list string) :
  inputs w = line :: rest ->
  acts line = false ->
  turn w = turn (with_inputs rest w).
Proof.
  intros Hin Hidle. rewrite turn_unfold.
  unfold player_turn_body, bind, input. rewrite Hin.
  unfold acts in Hidle.
  repeat (apply orb_false_iff in Hidle; destruct Hidle as [Hidle ?]).
  rewrite Hidle.
  repeat match goal with H : String.eqb _ _ = false |- _ => rewrite H end.
  destruct (String.eqb line "stats"); reflexivity.
Qed.

(** X10: [stats] and every line that is no command cost nothing: the turn goes
    on
    as if those lines had not been typed, and an encounter between two
    living combatants that is fed only such lines stops at the end of the
    input with both combatants and the random source as they were. *)
Theorem idle_lines_cost_nothing (w : world) (idle rest : list string) :
  inputs w = (idle ++ rest)%list ->
  Forall (fun line => acts line = false) idle ->
  turn w = turn (with_inputs rest w)
  /\ (rest = [] ->
      0 < current_hp (player w) ->
      0 < current_hp (enemy w) ->
      start_combat w = EOFError (with_inputs [] w)).
Proof.
  intros Hin Hidle.
  assert (Hturn : turn w = turn (with_inputs rest w)).
  { revert w Hin. induction Hidle as [| line idle Hline Hidle IH];
      intros w Hin.
    - cbn in Hin. destruct w; cbn in *; subst; reflexivity.
    - rewrite (idle_line w line (idle ++ rest)%list Hin Hline).
      rewrite (IH (with_inputs (idle ++ rest)%list w) eq_refl). reflexivity. }
  split; [exact Hturn |].
  intros -> Hp He. rewrite start_combat_unfold.
  unfold start_combat_body. unfold bind at 1. unfold read at 1.
  unfold bind at 1. unfold read at 1. cbn [get].
  apply Z.ltb_lt in Hp, He. rewrite Hp, He. cbn [andb].
  unfold bind at 1. rewrite Hturn, turn_unfold. reflexivity.
Qed.

(** The player asks for the stats three times and types a word that is no
    command; the input ends there. *)
Definition dithering : world :=
  mkWorld (Warrior "Hero") minor_bandit (fun _ => 0) 0
    ["stats"; "stats"; "stats"; "flee"].

Lemma idle_lines_cost_nothing_witness :
  turn dithering = turn (with_inputs [] dithering)
  /\ start_combat dithering = EOFError (with_inputs [] dithering).
Proof.
  destruct (idle_lines_cost_nothing dithering
              ["stats"; "stats"; "stats"; "flee"] [] eq_refl) as [H1 H2].
  - repeat constructor.
  - split; [exact H1 |]. apply H2; reflexivity.
Defined.

(** X11: Asking for an item and then backing out costs nothing either: with an
    empty inventory the request is dropped at once, and [Cancel] at the item
    prompt returns to the command prompt. *)
Theorem item_request_dropped (w : world) (rest : list string) :
  (inputs w = "item" :: rest /\ inventory (player w) = ∅)
  \/ inputs w = "item" :: "Cancel" :: rest ->
  turn w = turn (with_inputs rest w).
Proof.
  intros [[Hin Hempty] | Hin]; rewrite turn_unfold;
    unfold player_turn_body; unfold bind at 1; unfold input at 1;
    rewrite Hin; cbn [String.eqb Ascii.eqb Bool.eqb];
    unfold bind at 1; rewrite use_item_unfold; cbn [player].
  - rewrite (bool_decide_eq_true_2 _ Hempty). reflexivity.
  - destruct (bool_decide _).
    + cbn [is_true_result].
      apply (idle_line (mkWorld _ _ _ _ _) "Cancel" rest); reflexivity.
    + rewrite use_item_loop_unfold. reflexivity.
Qed.

Lemma item_request_dropped_witness :
  turn (with_inputs ["item"; "attack"] one_blow) = turn one_blow.
Proof.
  apply (item_request_dropped (with_inputs ["item"; "attack"] one_blow)
           ["attack"]).
  left. split; reflexivity.
Defined.

(** X12: Using an item spends the turn, and what is used up is taken out of the
    inventory.  The name typed at the item prompt reaches the comparison with
    the keys as the value of [strip().title()]; the names of the Health
    Potion, the Elven Blade and the Arcane Focus are such values (the name of
    the Scroll of Protection is not: [title()] writes it with a capital O),
    so the statement is about these three items, each held under its own
    name as [_get_item] stores it.  For a line [item] followed by that name
    (a legendary weapon only while none is equipped), the turn ends with the
    item's effect applied; the Health Potion is deleted from the inventory,
    the Elven Blade and the Arcane Focus stay in it. *)
Theorem item_used (w : world) (item : item_ref) (rest : list string) :
  item <> SCROLL_PROTECTION ->
  inputs w = "item" :: item_name (item_of item) :: rest ->
  inventory (player w) !! item_name (item_of item) = Some item ->
  (item <> HEALTH_POTION -> weapon_boost (player w) = 0) ->
  let used := snd (use (item_of item) (player w)) in
  turn w
  = Ok tt
      (set_player
         (if bool_decide (item = HEALTH_POTION)
          then set_inventory (delete "Health Potion" (inventory used)) used
          else used)
         (with_inputs rest w)).
Proof.
  intros Hitem Hin Hheld Hfree used.
  assert (Hsome : bool_decide (inventory (player w) = ∅) = false).
  { apply bool_decide_eq_false_2. intros E. rewrite E in Hheld.
    rewrite lookup_empty in Hheld. discriminate Hheld. }
  rewrite turn_unfold.
  unfold player_turn_body. unfold bind at 1. unfold input at 1.
  rewrite Hin. cbn [String.eqb Ascii.eqb Bool.eqb].
  unfold bind at 1. rewrite use_item_unfold. cbn [player].
  rewrite Hsome, use_item_loop_unfold.
  unfold _player_use_item_body. unfold bind at 1. unfold input at 1.
  cbn [inputs]. subst used.
  destruct item; [| contradiction | |];
    cbn [item_of item_name] in *;
    cbn [String.eqb Ascii.eqb Bool.eqb];
    unfold bind at 1; unfold read at 1; cbn [get player];
    rewrite Hheld;
    try (rewrite Hfree by discriminate);
    unfold is_permanent; cbn [String.eqb Ascii.eqb Bool.eqb orb andb negb];
    unfold bind, call, assign, ret; chars; reflexivity.
Qed.

(** A wounded Warrior drinks the Health Potion of the starting inventory. *)
Definition thirsty : world :=
  mkWorld
    (set_inventory {[ "Health Potion" := HEALTH_POTION ]}
       (set_current_hp 50 (Warrior "Hero")))
    minor_bandit (fun _ => 0) 0 ["item"; "Health Potion"].

Lemma item_used_witness :
  exists w' : world,
    turn thirsty = Ok tt w'
    /\ current_hp (player w') = 90
    /\ inventory (player w') !! "Health Potion" = None.
Proof.
  eexists. split.
  - apply (item_used thirsty HEALTH_POTION []).
    + discriminate.
    + reflexivity.
    + vm_compute. reflexivity.
    + intros H. contradiction.
  - split; vm_compute; reflexivity.
Defined.

(** X13: An encounter entered by a combatant without hit points is over before
    it
    starts: [start_combat] returns at once, [True] exactly when it is the
    enemy who has none and the player has some, without reading a line,
    drawing a number or touching either combatant. *)
Theorem start_combat_already_over (w : world) :
  current_hp (player w) <= 0 \/ current_hp (enemy w) <= 0 ->
  start_combat w = Ok (0 <? current_hp (player w)) w.
Proof.
  intros H. rewrite start_combat_unfold.
  unfold start_combat_body, bind, read. cbn [get].
  destruct ((0 <? current_hp (player w)) && (0 <? current_hp (enemy w)))
    eqn:Alive; [| reflexivity].
  apply andb_true_iff in Alive. destruct Alive as [Hp He].
  apply Z.ltb_lt in Hp, He. lia.
Qed.

Lemma start_combat_already_over_witness :
  start_combat (set_enemy (set_current_hp 0 minor_bandit) one_blow)
  = Ok true (set_enemy (set_current_hp 0 minor_bandit) one_blow).
Proof.
  apply (start_combat_already_over
           (set_enemy (set_current_hp 0 minor_bandit) one_blow)).
  right. vm_compute. discriminate.
Defined.

(** ** What an encounter never changes *)

(** A property of the two combatants. *)
Definition on_chars (P : Character -> Character -> Prop) (w : world) : Prop :=
  P (player w) (enemy w).

(** The property survives every assignment the combat code makes to a
    combatant. *)
Record closed (P : Character -> Character -> Prop) : Prop := mkClosed {
  closed_hit_player :
    forall p e d, P p e -> P (snd (take_damage p d)) e;
  closed_hit_enemy :
    forall p e d, P p e -> P p (snd (take_damage e d));
  closed_defend :
    forall p e b, P p e -> P (set_is_defending b p) e;
  closed_buff :
    forall p e v, P p e -> P (set_temp_defense_buff v p) e;
  closed_use :
    forall p e r, P p e -> P (snd (use (item_of r) p)) e;
  closed_delete :
    forall p e k, is_permanent k = false -> P p e ->
      P (set_inventory (delete k (inventory p)) p) e;
  closed_heal :
    forall p e v, P p e -> P p (set_current_hp v e)
}.

Section Closed.
Variable P : Character -> Character -> Prop.

Lemma frame_randint (a b : Z) : keeps (on_chars P) (randint a b).
Proof. intros w H. exact H. Qed.

Lemma frame_random : keeps (on_chars P) random.
Proof. intros w H. exact H. Qed.

Lemma frame_input : keeps (on_chars P) input.
Proof.
  intros w H. unfold wp, input. destruct (inputs w); [exact I | exact H].
Qed.

Lemma frame_assign_player (f : Character -> Character) :
  (forall p e, P p e -> P (f p) e) -> keeps (on_chars P) (assign Player f).
Proof. intros Hf w H. apply Hf, H. Qed.

Lemma frame_assign_enemy (f : Character -> Character) :
  (forall p e, P p e -> P p (f e)) -> keeps (on_chars P) (assign Enemy f).
Proof. intros Hf w H. apply Hf, H. Qed.

Lemma frame_call_player {A : Type} (f : Character -> A * Character) :
  (forall p e, P p e -> P (snd (f p)) e) -> keeps (on_chars P) (call Player f).
Proof.
  intros Hf w H. unfold wp, call. cbn [get].
  specialize (Hf _ _ H). destruct (f (player w)). exact Hf.
Qed.

Lemma frame_call_enemy {A : Type} (f : Character -> A * Character) :
  (forall p e, P p e -> P p (snd (f e))) -> keeps (on_chars P) (call Enemy f).
Proof.
  intros Hf w H. unfold wp, call. cbn [get].
  specialize (Hf _ _ H). destruct (f (enemy w)). exact Hf.
Qed.
End Closed.

(** The side conditions are the fields of [closed]. *)
Ltac frame_side HP :=
  intros; cbn beta;
  first
    [ apply (closed_defend _ HP)
    | apply (closed_buff _ HP)
    | apply (closed_use _ HP)
    | apply (closed_hit_player _ HP)
    | apply (closed_hit_enemy _ HP)
    | apply (closed_heal _ HP)
    | apply (closed_delete _ HP);
      [ match goal with
        | H : negb _ = true |- _ => apply negb_true_iff in H; exact H
        end | ] ];
  assumption.

Ltac frame_step HP :=
  lazymatch goal with
  | |- keeps _ (if ?b then _ else _) => destruct b eqn:?
  | |- keeps _ (match ?o with Some _ => _ | None => _ end) => destruct o
  | |- keeps _ (bind _ _) => apply keeps_bind; [| intros ?]
  | |- keeps _ (ret _) => apply keeps_ret
  | |- keeps _ (read _) => apply keeps_read
  | |- keeps _ (randint _ _) => apply frame_randint
  | |- keeps _ random => apply frame_random
  | |- keeps _ input => apply frame_input
  | |- keeps _ (fun _ => OutOfFuel) => apply keeps_fuel
  | |- keeps _ (assign Player _) => apply frame_assign_player; frame_side HP
  | |- keeps _ (assign Enemy _) => apply frame_assign_enemy; frame_side HP
  | |- keeps _ (call Player _) => apply frame_call_player; frame_side HP
  | |- keeps _ (call Enemy _) => apply frame_call_enemy; frame_side HP
  | |- keeps _ (call ?x _) => destruct x
  end.

Lemma frame_calculate_damage (P : Character -> Character -> Prop)
    (HP : closed P) (a d : who) (s : Z) (m : bool) :
  keeps (on_chars P) (_calculate_damage a d s m).
Proof.
  unfold _calculate_damage. repeat frame_step HP.
Qed.

Lemma frame_player_magic (P : Character -> Character -> Prop)
    (HP : closed P) :
  keeps (on_chars P) _player_magic.
Proof.
  unfold _player_magic. repeat frame_step HP;
    apply frame_calculate_damage, HP.
Qed.

Lemma frame_enemy_turn (P : Character -> Character -> Prop)
    (HP : closed P) :
  keeps (on_chars P) _enemy_turn.
Proof.
  unfold _enemy_turn, _enemy_special_move. repeat frame_step HP;
    apply frame_calculate_damage, HP.
Qed.

Lemma frame_player_use_item (P : Character -> Character -> Prop)
    (HP : closed P) (fuel : nat) :
  keeps (on_chars P) (_player_use_item fuel).
Proof.
  unfold _player_use_item.
  frame_step HP; [frame_step HP |]. frame_step HP; [frame_step HP |].
  induction fuel as [| fuel IH]; cbn [_player_use_item_loop].
  - apply keeps_fuel.
  - repeat frame_step HP; apply IH.
Qed.

Lemma frame_player_turn (P : Character -> Character -> Prop)
    (HP : closed P) (fuel : nat) :
  keeps (on_chars P) (player_turn fuel).
Proof.
  induction fuel as [| fuel IH]; cbn [player_turn].
  - apply keeps_fuel.
  - repeat frame_step HP;
      first [ apply IH
            | apply frame_player_use_item, HP
            | apply frame_player_magic, HP
            | unfold _player_attack; repeat frame_step HP;
              apply frame_calculate_damage, HP
            | unfold _player_defend; frame_step HP ].
Qed.

Lemma frame_start_combat_loop (P : Character -> Character -> Prop)
    (HP : closed P) (fuel : nat) :
  keeps (on_chars P) (start_combat_loop fuel).
Proof.
  induction fuel as [| fuel IH]; cbn [start_combat_loop].
  - apply keeps_fuel.
  - repeat frame_step HP;
      first [ apply IH | apply frame_player_turn, HP
            | apply frame_enemy_turn, HP ].
Qed.

(** Whatever every assignment keeps, the whole encounter keeps. *)
Lemma frame_start_combat (P : Character -> Character -> Prop) (w : world)
    (b : bool) (w' : world) :
  closed P ->
  P (player w) (enemy w) ->
  start_combat w = Ok b w' ->
  P (player w') (enemy w').
Proof.
  intros HP H Hrun.
  pose proof (frame_start_combat_loop P HP (S (length (inputs w))) w H) as Hk.
  unfold wp in Hk. unfold start_combat in Hrun. rewrite Hrun in Hk. exact Hk.
Qed.

(** What the player is, as opposed to what the player has. *)
Definition same_self (c c' : Character) : Prop :=
  name c' = name c
  /\ max_hp c' = max_hp c
  /\ agility c' = agility c
  /\ ability_name c' = ability_name c.

(** A hit changes nothing a property reads, when the property reads none of
    hit points, defend flag and buff. *)
Ltac by_fields :=
  unfold same_self, same_build in *; fields;
  destruct_and?; repeat split; congruence.

Lemma closed_builds (p0 e0 : Character) :
  closed (fun p e => same_self p0 p /\ same_build e0 e).
Proof.
  split.
  - intros p e d [Hp He]. split; [| exact He].
    pose proof (take_damage_same_build p d) as Hb. by_fields.
  - intros p e d [Hp He]. split; [exact Hp |].
    pose proof (take_damage_same_build e d) as Hb. by_fields.
  - intros p e b [Hp He]. split; [| exact He]. by_fields.
  - intros p e v [Hp He]. split; [| exact He]. by_fields.
  - intros p e r [Hp He]. split; [| exact He].
    destruct r; cbn [use item_of effect snd];
      unfold use_health_potion, heal, use_scroll_of_protection,
        use_elven_blade, use_arcane_focus;
      try destruct (negb _); by_fields.
  - intros p e k _ [Hp He]. split; [| exact He]. by_fields.
  - intros p e v [Hp He]. split; [exact Hp |]. by_fields.
Qed.

(** X14: An encounter changes nothing of the enemy but its hit points, defend
    flag and buff (its stats, its inventory and its weapon boost are as they
    were), and leaves the player's name, maximum hit points, agility and
    ability alone. *)
Theorem combat_keeps_builds (w : world) (b : bool) (w' : world) :
  start_combat w = Ok b w' ->
  same_build (enemy w) (enemy w') /\ same_self (player w) (player w').
Proof.
  intros Hrun.
  destruct (frame_start_combat _ w b w'
              (closed_builds (player w) (enemy w))) as [Hp He].
  - split; [unfold same_self | unfold same_build]; repeat split.
  - exact Hrun.
  - split; assumption.
Qed.

Lemma combat_keeps_builds_witness :
  exists w' : world,
    start_combat one_blow = Ok true w'
    /\ same_build minor_bandit (enemy w')
    /\ same_self (Warrior "Hero") (player w').
Proof.
  eexists. split; [vm_compute; reflexivity |].
  apply (combat_keeps_builds one_blow true). vm_compute. reflexivity.
Defined.

(** What the player has can only go one way. *)
Definition gear_since (c c' : Character) : Prop :=
  strength c <= strength c'
  /\ magic c <= magic c'
  /\ (weapon_boost c' = weapon_boost c \/ weapon_boost c' = 5)
  /\ inventory c' ⊆ inventory c
  /\ forall k, is_permanent k = true -> inventory c' !! k = inventory c !! k.

Lemma closed_gear (p0 : Character) :
  closed (fun p _ => gear_since p0 p).
Proof.
  split.
  - intros p e d (Hs & Hm & Hw & Hsub & Hperm).
    destruct (take_damage_same_build p d)
      as (_ & _ & Es & _ & Em & _ & Ei & Ew).
    unfold gear_since. rewrite Es, Em, Ei, Ew. auto.
  - intros p e d H. exact H.
  - intros p e b H. exact H.
  - intros p e v H. exact H.
  - intros p e r (Hs & Hm & Hw & Hsub & Hperm). unfold gear_since.
    destruct r; cbn [use item_of effect snd];
      unfold use_health_potion, heal, use_scroll_of_protection,
        use_elven_blade, use_arcane_focus;
      try destruct (negb _); fields;
      repeat split; try assumption; try lia; auto.
  - intros p e k Hk (Hs & Hm & Hw & Hsub & Hperm). unfold gear_since. fields.
    repeat split; try assumption.
    + etrans; [apply delete_subseteq | assumption].
    + intros k' Hk'. rewrite lookup_delete_ne by congruence. auto.
  - intros p e v H. exact H.
Qed.

(** X15: In an encounter the player's strength and magic never go down, the
    weapon boost stays or becomes 5, the inventory gains nothing, and the
    Elven Blade and the Arcane Focus are never taken out of it. *)
Theorem combat_keeps_gear (w : world) (b : bool) (w' : world) :
  start_combat w = Ok b w' ->
  gear_since (player w) (player w').
Proof.
  intros Hrun.
  apply (frame_start_combat _ w b w' (closed_gear (player w)));
    [| exact Hrun].
  unfold gear_since. repeat split; try lia; auto.
Qed.

(** A Warrior who holds the Elven Blade and a potion equips the blade,
    drinks the potion and strikes the bandit down; every die shows 4 and
    every percentage roll 100. *)
Definition armed : world :=
  mkWorld
    (set_inventory
       {[ "Elven Blade" := ELVEN_BLADE; "Health Potion" := HEALTH_POTION ]}
       (Warrior "Hero"))
    minor_bandit (fun _ => 99) 0
    ["item"; "Elven Blade"; "item"; "Health Potion"; "attack"].

Lemma combat_keeps_gear_witness :
  exists w' : world,
    start_combat armed = Ok true w'
    /\ gear_since (player armed) (player w')
    /\ inventory (player w') !! "Elven Blade" = Some ELVEN_BLADE
    /\ inventory (player w') !! "Health Potion" = None.
Proof.
  eexists. split; [vm_compute; reflexivity |]. split.
  - apply (combat_keeps_gear armed true). vm_compute. reflexivity.
  - split; vm_compute; reflexivity.
Defined.

(** X16: Both combatants leave an encounter with their hit points within bounds
    when they entered it so. *)
Theorem combat_keeps_hp_bounds (w : world) (b : bool) (w' : world) :
  hp_ok (player w) ->
  hp_ok (enemy w) ->
  start_combat w = Ok b w' ->
  hp_ok (player w') /\ hp_ok (enemy w').
Proof.
  intros Hp He Hrun.
  pose proof (start_combat_loop_verdict (S (length (inputs w))) w
                (conj Hp He)) as H.
  unfold wp in H. unfold start_combat in Hrun. rewrite Hrun in H.
  apply H.
Qed.

Lemma combat_keeps_hp_bounds_witness :
  exists w' : world,
    start_combat armed = Ok true w'
    /\ hp_ok (player w') /\ hp_ok (enemy w').
Proof.
  eexists. split; [vm_compute; reflexivity |].
  apply (combat_keeps_hp_bounds armed true).
  - unfold hp_ok. cbn. lia.
  - unfold hp_ok. cbn. lia.
  - vm_compute. reflexivity.
Defined.

(** ** The percentage rolls *)

(** X17: The two rolls of the damage resolution against the float percentages,
    in
    integers: the hit is critical exactly when ten times the roll is at most
    50 plus the attacker's agility, and dodged exactly when five times the
    roll is at most the defender's agility.  So nobody with agility below 5
    ever dodges, and an attacker needs agility -40 or less never to land a
    critical hit. *)
Theorem percentage_rolls (attacker defender : Character) (s : Z) (w : world) :
  (dodged defender w = true <-> 5 * roll 1 100 2 w <= agility defender)
  /\ (base_damage attacker s w = roll 1 6 0 w * s * 2
      \/ base_damage attacker s w = roll 1 6 0 w * s)
  /\ (10 * roll 1 100 1 w <= 50 + agility attacker ->
      base_damage attacker s w = roll 1 6 0 w * s * 2)
  /\ (50 + agility attacker < 10 * roll 1 100 1 w ->
      base_damage attacker s w = roll 1 6 0 w * s)
  /\ (agility defender < 5 -> dodged defender w = false).
Proof.
  assert (Hdodge :
    dodged defender w = true <-> 5 * roll 1 100 2 w <= agility defender).
  { unfold dodged, roll_le, dodge_chance, Qle_bool.
    cbn [Qnum Qden inject_Z Qdiv Qmult Qinv Pos.mul].
    rewrite Z.leb_le. lia. }
  assert (Hcrit :
    roll_le (roll 1 100 1 w) (crit_chance attacker) = true
    <-> 10 * roll 1 100 1 w <= 50 + agility attacker).
  { unfold roll_le, crit_chance, Qle_bool.
    cbn [Qnum Qden inject_Z Qdiv Qmult Qinv Qplus Pos.mul].
    rewrite Z.leb_le. lia. }
  split; [exact Hdodge |]. unfold base_damage.
  destruct (roll_le (roll 1 100 1 w) (crit_chance attacker)) eqn:E.
  - pose proof (proj1 Hcrit eq_refl).
    repeat split; auto; try lia.
    intros Hlow. pose proof (roll_range 1 100 2 w ltac:(lia)).
    destruct (dodged defender w); [| reflexivity].
    pose proof (proj1 Hdodge eq_refl). lia.
  - assert (~ 10 * roll 1 100 1 w <= 50 + agility attacker)
      by (intros H; apply Hcrit in H; discriminate).
    repeat split; auto; try lia.
    intros Hlow. pose proof (roll_range 1 100 2 w ltac:(lia)).
    destruct (dodged defender w); [| reflexivity].
    pose proof (proj1 Hdodge eq_refl). lia.
Qed.

(** * The story around the encounters: [World], [player_setup], [game_loop]

    The [World] object holds the player (the very object the encounters
    fight with) and the stage.  [isinstance] looks at the class of the
    player object, which is kept next to it.  The random source and the
    input are those of the encounters. *)

Inductive player_class : Type :=
  | WarriorClass
  | MageClass
  | RogueClass
  | CharacterClass.

Record game : Type := mkGame {
  hero : Character;
  hero_class : player_class;
  stage : Z;
  dice : nat -> Z;
  dpos : nat;
  lines : list string
}.

(** [self.player.agility = v]: only the story assigns the agility. *)
Definition set_agility (v : Z) (c : Character) : Character :=
  mkCharacter (name c) (max_hp c) (current_hp c) (strength c) v (magic c)
    (ability_name c) (is_defending c) (temp_defense_buff c) (inventory c)
    (weapon_boost c).

Definition set_hero (c : Character) (g : game) : game :=
  mkGame c (hero_class g) (stage g) (dice g) (dpos g) (lines g).

Definition set_stage (n : Z) (g : game) : game :=
  mkGame (hero g) (hero_class g) n (dice g) (dpos g) (lines g).

Definition set_lines (l : list string) (g : game) : game :=
  mkGame (hero g) (hero_class g) (stage g) (dice g) (dpos g) l.

(** A call returns, or is cut short by the [EOFError] of [input()] or by
    the [SystemExit] of [end_game] (kept with the number of the ending that
    was shown), or has used up the loop budget of the model. *)
Inductive outcome (A : Type) : Type :=
  | Returned (a : A) (g : game)
  | RaisedEOF (g : game)
  | SystemExit (ending : Z) (g : game)
  | Stalled.

Arguments Returned {A} a g.
Arguments RaisedEOF {A} g.
Arguments SystemExit {A} ending g.
Arguments Stalled {A}.

Definition G (A : Type) : Type := game -> outcome A.

Definition gret {A : Type} (a : A) : G A := fun g => Returned a g.

Definition gbind {A B : Type} (m : G A) (k : A -> G B) : G B :=
  fun g =>
    match m g with
    | Returned a g' => k a g'
    | RaisedEOF g' => RaisedEOF g'
    | SystemExit n g' => SystemExit n g'
    | Stalled => Stalled
    end.

Notation "x <-- m ;; k" := (gbind m (fun x => k))
  (at level 100, m at next level, right associativity).
Notation "m ;;;; k" := (gbind m (fun _ => k))
  (at level 100, right associativity).

Definition the_hero : G Character := fun g => Returned (hero g) g.

Definition on_hero (f : Character -> Character) : G unit :=
  fun g => Returned tt (set_hero (f (hero g)) g).

(** [Combat(self.player, enemy).start_combat()]: the encounter runs on the
    player object, the random source and the input of the game. *)
Definition fight (enemy : Character) : G bool :=
  fun g =>
    match start_combat (mkWorld (hero g) enemy (dice g) (dpos g) (lines g)) with
    | Ok b w =>
        Returned b
          (mkGame (player w) (hero_class g) (stage g) (rng w) (rpos w)
             (inputs w))
    | EOFError w =>
        RaisedEOF
          (mkGame (player w) (hero_class g) (stage g) (rng w) (rpos w)
             (inputs w))
    | OutOfFuel => Stalled
    end.

(** [random.choice(seq)] of a list that is not empty: the element at the
    next raw draw, brought into the indices. *)
Definition random_choice {A : Type} (default : A) (seq : list A) : G A :=
  fun g =>
    Returned
      (nth (Z.to_nat (dice g (dpos g) mod Z.of_nat (length seq))) seq default)
      (mkGame (hero g) (hero_class g) (stage g) (dice g) (S (dpos g))
         (lines g)).

(** [World._get_item], on the player object. *)
Definition get_item_on (item : item_ref) (c : Character) : Character :=
  match inventory c !! item_name (item_of item) with
  | Some _ => c
  | None =>
      set_inventory (<[item_name (item_of item) := item]> (inventory c)) c
  end.

Definition _get_item (item : item_ref) : G unit :=
  on_hero (get_item_on item).

(** The loop of [World._handle_choice]: every turn reads a line (after its
    [strip().upper()]), so the loop is a recursion over the lines left; no
    line left is the [EOFError]. *)
Fixpoint first_choice (options : gmap string string) (lines : list string)
  : option (string * list string) :=
  match lines with
  | [] => None
  | choice :: rest =>
      if bool_decide (is_Some (options !! choice))
      then Some (choice, rest)
      else first_choice options rest
  end.

Definition _handle_choice (prompt : string) (options : gmap string string)
  : G string :=
  fun g =>
    match first_choice options (lines g) with
    | Some (choice, rest) => Returned choice (set_lines rest g)
    | None => RaisedEOF (set_lines [] g)
    end.

(** [World.end_game]: whatever the number, the game exits. *)
Definition end_game (ending_number : Z) : G unit :=
  fun g => SystemExit ending_number g.

Definition stage_1 : G bool :=
  let bandit := Character_init "Minor Bandit" 8 10 5 60 "Quick Strike" in
  combat_result <-- fight bandit ;;
  if negb combat_result then gret false
  else
    _get_item HEALTH_POTION ;;;;
    let choice_options : gmap string string :=
      {[ "A" := "Heal it and offer comfort (Risking time and resources).";
         "B" := "Ignore it and continue on the path (Safest choice)." ]} in
    choice <-- _handle_choice "Do you help the injured creature?"
                 choice_options ;;
    (if String.eqb choice "A" then
       stat_boost <-- random_choice "" ["strength"; "agility"; "magic"] ;;
       if String.eqb stat_boost "strength" then
         on_hero (fun c => set_strength (strength c + 1) c)
       else if String.eqb stat_boost "agility" then
         on_hero (fun c => set_agility (agility c + 1) c)
       else if String.eqb stat_boost "magic" then
         on_hero (fun c => set_magic (magic c + 1) c)
       else gret tt
     else gret tt) ;;;;
    (fun g => Returned tt (set_stage 2 g)) ;;;;
    gret true.

Definition stage_2 : G bool :=
  let bandit_king :=
    Character_init "Bandit King" 12 9 7 150 "King's Roar" in
  combat_result <-- fight bandit_king ;;
  if negb combat_result then gret false
  else
    _get_item SCROLL_PROTECTION ;;;;
    _get_item HEALTH_POTION ;;;;
    let choice_options : gmap string string :=
      {[ "A" := "Enter the dark, hidden passage (Risk for reward).";
         "B" := "Continue on the main, safer path." ]} in
    choice <-- _handle_choice "Do you explore the hidden passage?"
                 choice_options ;;
    (if String.eqb choice "A" then
       fun g =>
         match hero_class g with
         | WarriorClass | RogueClass => _get_item ELVEN_BLADE g
         | MageClass => _get_item ARCANE_FOCUS g
         | CharacterClass => gret tt g
         end
     else gret tt) ;;;;
    (fun g => Returned tt (set_stage 3 g)) ;;;;
    gret true.

(** [hp < max_hp / 2] with the float quotient kept as a rational. *)
Definition below_half (c : Character) : bool :=
  negb (Qle_bool (inject_Z (max_hp c) / 2)%Q (inject_Z (current_hp c))).

Definition stage_3 : G bool :=
  let final_boss :=
    Character_init "Arch-Lich, Final Boss" 10 15 18 200 "Arcane Drain" in
  let choice_options : gmap string string :=
    {[ "A" := "Draw your weapon and charge! (FIGHT: Standard Combat)";
       "B" := "Attempt to bargain or reason with the creature. (DIPLOMACY: Stat Check)";
       "C" := "Accept its power and betray your cause. (CORRUPTION: Dark Ending)" ]} in
  final_choice <--
    _handle_choice
      "The Arch-Lich turns its hollow gaze upon you. What is your final action?"
      choice_options ;;
  (if String.eqb final_choice "A" then
     combat_result <-- fight final_boss ;;
     if combat_result then end_game 1 ;;;; gret true
     else gret false
   else if String.eqb final_choice "B" then
     p <-- the_hero ;;
     if (15 <=? magic p) || (weapon_boost p =? 5)
     then end_game 2 ;;;; gret true
     else gret false
   else if String.eqb final_choice "C" then
     p <-- the_hero ;;
     if below_half p then end_game 3 ;;;; gret true
     else gret false
   else gret true).

(** The [while world.stage <= 3] of [game_loop]; a stage that fails breaks
    out of it. *)
Fixpoint game_loop_from (fuel : nat) : G unit :=
  match fuel with
  | O => fun _ => Stalled
  | S fuel =>
      fun g =>
        if stage g <=? 3 then
          (success <--
             (if stage g =? 1 then stage_1
              else if stage g =? 2 then stage_2
              else if stage g =? 3 then stage_3
              else gret false) ;;
           if negb success then gret tt
           else game_loop_from fuel) g
        else gret tt g
  end.

(** [game_loop(player)]: [World(player)] starts at stage 1, and no stage is
    entered twice, so that four turns of the loop are budget enough (see
    [game_loop_from_ends]). *)
Definition game_loop : G unit :=
  fun g => game_loop_from 4 (set_stage 1 g).

(** The class loop of [player_setup], a recursion over the lines left like
    [first_choice]. *)
Fixpoint choose_class (name : string) (lines : list string)
  : option (player_class * Character * list string) :=
  match lines with
  | [] => None
  | choice :: rest =>
      if String.eqb choice "W" then Some (WarriorClass, Warrior name, rest)
      else if String.eqb choice "M" then Some (MageClass, Mage name, rest)
      else if String.eqb choice "R" then Some (RogueClass, Rogue name, rest)
      else choose_class name rest
  end.

(** [player_setup]: the name, the class, the starting inventory.  [None] is
    the [EOFError]. *)
Definition player_setup (lines : list string)
  : option (player_class * Character * list string) :=
  match lines with
  | [] => None
  | name :: rest =>
      match choose_class name rest with
      | Some (k, player_class, rest') =>
          let player_class :=
            set_inventory
              (<["Health Potion" := HEALTH_POTION]> (inventory player_class))
              player_class in
          let player_class :=
            set_inventory
              (<["Scroll of Protection" := SCROLL_PROTECTION]>
                 (inventory player_class))
              player_class in
          Some (k, player_class, rest')
      | None => None
      end
  end.

(** ** Reasoning about the story *)

(** [ends m Q X g]: from [g], the call [m] returns with [Q], or exits with
    [X], or is cut short by the end of the input; the loop budget is not
    what stops it. *)
Definition ends {A : Type} (m : G A) (Q : A -> game -> Prop)
    (X : Z -> game -> Prop) (g : game) : Prop :=
  match m g with
  | Returned a g' => Q a g'
  | RaisedEOF _ => True
  | SystemExit n g' => X n g'
  | Stalled => False
  end.

Lemma ends_ret {A : Type} (a : A) (Q : A -> game -> Prop)
    (X : Z -> game -> Prop) (g : game) :
  Q a g -> ends (gret a) Q X g.
Proof. intros H. exact H. Qed.

Lemma ends_bind {A B : Type} (m : G A) (k : A -> G B)
    (Q : B -> game -> Prop) (X : Z -> game -> Prop) (g : game) :
  ends m (fun a g' => ends (k a) Q X g') X g -> ends (gbind m k) Q X g.
Proof. unfold ends, gbind. destruct (m g); auto. Qed.

Lemma ends_mono {A : Type} (m : G A) (Q Q' : A -> game -> Prop)
    (X X' : Z -> game -> Prop) (g : game) :
  ends m Q X g ->
  (forall a g', Q a g' -> Q' a g') ->
  (forall n g', X n g' -> X' n g') ->
  ends m Q' X' g.
Proof. unfold ends. destruct (m g); auto. Qed.

Lemma ends_on_hero (f : Character -> Character) (Q : unit -> game -> Prop)
    (X : Z -> game -> Prop) (g : game) :
  Q tt (set_hero (f (hero g)) g) -> ends (on_hero f) Q X g.
Proof. intros H. exact H. Qed.

Lemma ends_the_hero (Q : Character -> game -> Prop) (X : Z -> game -> Prop)
    (g : game) :
  Q (hero g) g -> ends the_hero Q X g.
Proof. intros H. exact H. Qed.

Lemma ends_end_game (n : Z) (Q : unit -> game -> Prop)
    (X : Z -> game -> Prop) (g : game) :
  X n g -> ends (end_game n) Q X g.
Proof. intros H. exact H. Qed.

(** What [first_choice] finds: the first line that is a key, with the lines
    before it, none of them a key, dropped. *)
Lemma first_choice_spec (options : gmap string string) (l : list string) :
  match first_choice options l with
  | Some (choice, rest) =>
      exists skipped : list string,
        l = (skipped ++ choice :: rest)%list
        /\ Forall (fun line => options !! line = None) skipped
        /\ is_Some (options !! choice)
  | None => Forall (fun line => options !! line = None) l
  end.
Proof.
  induction l as [| line l IH]; cbn [first_choice]; [constructor |].
  destruct (bool_decide (is_Some (options !! line))) eqn:E.
  - apply bool_decide_eq_true_1 in E. exists []. auto.
  - apply bool_decide_eq_false_1 in E.
    assert (Hnone : options !! line = None).
    { destruct (options !! line) eqn:L; [| reflexivity].
      exfalso. apply E. eauto. }
    destruct (first_choice options l) as [[choice rest] |].
    + destruct IH as (skipped & -> & Hskip & Hkey).
      exists (line :: skipped). auto.
    + constructor; assumption.
Qed.

(** X18: [_get_item] puts the item under its name unless the name is taken, and
    touches no other entry and nothing but the inventory; doing it twice is
    doing it once. *)
Theorem get_item_on_spec (item : item_ref) (c : Character) (k : string) :
  inventory (get_item_on item c) !! item_name (item_of item)
  = Some (default item (inventory c !! item_name (item_of item)))
  /\ (k <> item_name (item_of item) ->
      inventory (get_item_on item c) !! k = inventory c !! k)
  /\ get_item_on item (get_item_on item c) = get_item_on item c
  /\ set_inventory (inventory c) (get_item_on item c) = c.
Proof.
  unfold get_item_on.
  destruct (inventory c !! item_name (item_of item)) as [held |] eqn:E.
  - rewrite E. cbn [default]. repeat split; auto.
    destruct c; reflexivity.
  - fields. rewrite lookup_insert_eq. cbn [default].
    repeat split; auto.
    + intros Hk. rewrite lookup_insert_ne by congruence. reflexivity.
    + destruct c; reflexivity.
Qed.

(** X19: [_handle_choice] returns the first line that is a key of [options]:
    the lines before it, none of them a key, are read and dropped, the
    lines after it are left, and nothing else changes.  When no line is a
    key it reads them all and ends in [EOFError]. *)
Theorem _handle_choice_first_key (prompt : string)
    (options : gmap string string) (g : game) :
  match _handle_choice prompt options g with
  | Returned choice g' =>
      (exists skipped : list string,
         lines g = (skipped ++ choice :: lines g')%list
         /\ Forall (fun line => options !! line = None) skipped)
      /\ is_Some (options !! choice)
      /\ g' = set_lines (lines g') g
  | RaisedEOF g' =>
      Forall (fun line => options !! line = None) (lines g)
      /\ g' = set_lines [] g
  | SystemExit _ _ => False
  | Stalled => False
  end.
Proof.
  unfold _handle_choice.
  pose proof (first_choice_spec options (lines g)) as H.
  destruct (first_choice options (lines g)) as [[choice rest] |].
  - destruct H as (skipped & Hl & Hskip & Hkey).
    cbn [lines set_lines]. repeat split; eauto.
  - split; [exact H | reflexivity].
Qed.

(** The class letters of [player_setup]. *)
Definition class_letter (line : string) : bool :=
  String.eqb line "W" || String.eqb line "M" || String.eqb line "R".

Definition starting_inventory : gmap string item_ref :=
  {[ "Health Potion" := HEALTH_POTION;
     "Scroll of Protection" := SCROLL_PROTECTION ]}.

Lemma choose_class_spec (name : string) (l : list string) :
  match choose_class name l with
  | Some (k, c, rest) =>
      exists (skipped : list string) (choice : string),
        l = (skipped ++ choice :: rest)%list
        /\ Forall (fun line => class_letter line = false) skipped
        /\ ((choice = "W" /\ k = WarriorClass /\ c = Warrior name)
            \/ (choice = "M" /\ k = MageClass /\ c = Mage name)
            \/ (choice = "R" /\ k = RogueClass /\ c = Rogue name))
  | None => Forall (fun line => class_letter line = false) l
  end.
Proof.
  induction l as [| line l IH]; cbn [choose_class]; [constructor |].
  destruct (String.eqb line "W") eqn:EW.
  { apply String.eqb_eq in EW. exists [], line. auto 10. }
  destruct (String.eqb line "M") eqn:EM.
  { apply String.eqb_eq in EM. exists [], line. auto 10. }
  destruct (String.eqb line "R") eqn:ER.
  { apply String.eqb_eq in ER. exists [], line. auto 10. }
  assert (Hline : class_letter line = false)
    by (unfold class_letter; rewrite EW, EM, ER; reflexivity).
  destruct (choose_class name l) as [[[k c] rest] |].
  - destruct IH as (skipped & choice & -> & Hskip & Hcase).
    exists (line :: skipped), choice. auto.
  - constructor; assumption.
Qed.

(** X20: [player_setup] takes the first line as the name and the first [W], [M]
    or [R] after it as the class, dropping the lines in between.  The player
    it returns is a fresh Warrior, Mage or Rogue of that name, at full
    health, with no weapon equipped, holding exactly a Health Potion and a
    Scroll of Protection.  It ends in [EOFError] when there is no name or no
    class letter. *)
Theorem player_setup_spec (l : list string) :
  match player_setup l with
  | Some (k, c, rest) =>
      exists (name : string) (skipped : list string) (choice : string),
        l = (name :: skipped ++ choice :: rest)%list
        /\ Forall (fun line => class_letter line = false) skipped
        /\ ((choice = "W" /\ k = WarriorClass
             /\ c = set_inventory starting_inventory (Warrior name))
            \/ (choice = "M" /\ k = MageClass
                /\ c = set_inventory starting_inventory (Mage name))
            \/ (choice = "R" /\ k = RogueClass
                /\ c = set_inventory starting_inventory (Rogue name)))
        /\ current_hp c = max_hp c
        /\ 0 < max_hp c
        /\ weapon_boost c = 0
        /\ is_defending c = false
        /\ temp_defense_buff c = 0
  | None =>
      l = []
      \/ exists (name : string) (rest : list string),
           l = name :: rest
           /\ Forall (fun line => class_letter line = false) rest
  end.
Proof.
  destruct l as [| name l]; cbn [player_setup]; [left; reflexivity |].
  pose proof (choose_class_spec name l) as H.
  destruct (choose_class name l) as [[[k c] rest] |].
  - destruct H as (skipped & choice & -> & Hskip & Hcase).
    exists name, skipped, choice.
    split; [reflexivity |]. split; [exact Hskip |].
    assert (Hinv : forall c0 : Character,
      inventory c0 = ∅ ->
      set_inventory
        (<["Scroll of Protection" := SCROLL_PROTECTION]>
           (inventory
              (set_inventory
                 (<["Health Potion" := HEALTH_POTION]> (inventory c0)) c0)))
        (set_inventory
           (<["Health Potion" := HEALTH_POTION]> (inventory c0)) c0)
      = set_inventory starting_inventory c0).
    { intros c0 E. unfold set_inventory. fields. rewrite E. reflexivity. }
    destruct Hcase as [(-> & -> & ->) | [(-> & -> & ->) | (-> & -> & ->)]];
      rewrite Hinv by reflexivity;
      (split; [auto 10 |]); repeat split.
  - right. exists name, l. auto.
Qed.

(** ** The stages *)

(** What holds of the game at every point of the story, measured against the
    game [g0] it started from: the hero's hit points are within bounds; name,
    maximum hit points, ability and class are those of the start; strength,
    agility and magic have not gone down. *)
Definition since (g0 g : game) : Prop :=
  hp_ok (hero g)
  /\ name (hero g) = name (hero g0)
  /\ max_hp (hero g) = max_hp (hero g0)
  /\ ability_name (hero g) = ability_name (hero g0)
  /\ strength (hero g0) <= strength (hero g)
  /\ agility (hero g0) <= agility (hero g)
  /\ magic (hero g0) <= magic (hero g)
  /\ hero_class g = hero_class g0.

(** An encounter inside the story: it returns with a verdict that tells
    whether the hero has hit points left, an inventory that has gained
    nothing, and the stage as it was. *)
Lemma ends_fight (foe : Character) (g0 g : game)
    (Q : bool -> game -> Prop) (X : Z -> game -> Prop) :
  since g0 g ->
  hp_ok foe ->
  (forall (b : bool) (g' : game),
     since g0 g' ->
     stage g' = stage g ->
     (if b then 0 < current_hp (hero g') else current_hp (hero g') = 0) ->
     inventory (hero g') ⊆ inventory (hero g) ->
     weapon_boost (hero g') = weapon_boost (hero g)
     \/ weapon_boost (hero g') = 5 ->
     Q b g') ->
  ends (fight foe) Q X g.
Proof.
  intros (Hhp & Hn & Hm & Hab & Hs & Ha & Hmg & Hc) He HQ.
  unfold ends, fight.
  set (w := mkWorld (hero g) foe (dice g) (dpos g) (lines g)).
  destruct (start_combat w) as [b w' | w' |] eqn:Hrun;
    [| exact I | exact (start_combat_fuel w Hrun)].
  pose proof (start_combat_loop_verdict (S (length (inputs w))) w
                (conj Hhp He)) as Hv.
  unfold wp in Hv. fold (start_combat w) in Hv. rewrite Hrun in Hv.
  destruct Hv as [[Hhp' He'] Hv].
  assert (Hbuild : same_self (hero g) (player w') /\ same_build foe (enemy w')).
  { apply (frame_start_combat _ w b w' (closed_builds (hero g) foe));
      [| exact Hrun].
    split; [unfold same_self | unfold same_build]; split_and!; reflexivity. }
  assert (Hgear : gear_since (hero g) (player w')).
  { apply (frame_start_combat _ w b w' (closed_gear (hero g)));
      [| exact Hrun].
    unfold gear_since. split_and!; try reflexivity; auto. }
  destruct Hbuild as [(Hn' & Hm' & Ha' & Hab') _].
  destruct Hgear as (Hs' & Hmg' & Hw' & Hsub & _).
  apply HQ; cbn [hero hero_class stage]; try assumption.
  - unfold since. cbn [hero hero_class].
    split_and!; try exact Hhp'; try congruence; lia.
  - reflexivity.
  - unfold hp_ok in Hhp'. destruct b; cbn in Hv; lia.
Qed.

(** The loot of a stage. *)
Lemma since_get_item (g0 g : game) (item : item_ref) :
  since g0 g -> since g0 (set_hero (get_item_on item (hero g)) g).
Proof.
  unfold since, get_item_on. cbn [hero hero_class set_hero].
  destruct (inventory (hero g) !! item_name (item_of item)); auto.
Qed.

Lemma get_item_on_held (item : item_ref) (c : Character) :
  is_Some (inventory (get_item_on item c) !! item_name (item_of item)).
Proof.
  unfold get_item_on.
  destruct (inventory c !! item_name (item_of item)) eqn:E.
  - rewrite E. eauto.
  - fields. rewrite lookup_insert_eq. eauto.
Qed.

Lemma get_item_on_other (item : item_ref) (c : Character) (k : string) :
  k <> item_name (item_of item) ->
  inventory (get_item_on item c) !! k = inventory c !! k.
Proof.
  intros Hk. unfold get_item_on.
  destruct (inventory c !! item_name (item_of item)); [reflexivity |].
  fields. rewrite lookup_insert_ne by congruence. reflexivity.
Qed.

Lemma get_item_on_keeps (item : item_ref) (c : Character) (k : string) :
  is_Some (inventory c !! k) ->
  is_Some (inventory (get_item_on item c) !! k).
Proof.
  intros H. destruct (decide (k = item_name (item_of item))) as [-> | Hk].
  - apply get_item_on_held.
  - rewrite get_item_on_other by exact Hk. exact H.
Qed.

Lemma get_item_on_hp (item : item_ref) (c : Character) :
  current_hp (get_item_on item c) = current_hp c.
Proof.
  unfold get_item_on.
  destruct (inventory c !! item_name (item_of item)); reflexivity.
Qed.

(** What [_handle_choice] leaves of the game. *)
Lemma ends_handle_choice (prompt : string) (options : gmap string string)
    (Q : string -> game -> Prop) (X : Z -> game -> Prop) (g : game) :
  (forall choice rest,
     is_Some (options !! choice) -> Q choice (set_lines rest g)) ->
  ends (_handle_choice prompt options) Q X g.
Proof.
  intros HQ. unfold ends, _handle_choice.
  pose proof (first_choice_spec options (lines g)) as H.
  destruct (first_choice options (lines g)) as [[choice rest] |];
    [| exact I].
  destruct H as (skipped & _ & _ & Hkey). apply HQ, Hkey.
Qed.

Lemma ends_random_choice {A : Type} (default : A) (seq : list A)
    (Q : A -> game -> Prop) (X : Z -> game -> Prop) (g : game) :
  (forall (a : A) (n : nat),
     Q a (mkGame (hero g) (hero_class g) (stage g) (dice g) n (lines g))) ->
  ends (random_choice default seq) Q X g.
Proof. intros H. apply H. Qed.

Ltac game_fields :=
  cbn [hero hero_class stage dice dpos lines set_hero set_stage set_lines]
    in *.

Lemma hp_ok_minor_bandit :
  hp_ok (Character_init "Minor Bandit" 8 10 5 60 "Quick Strike").
Proof. unfold hp_ok. cbn. lia. Qed.

Lemma hp_ok_bandit_king :
  hp_ok (Character_init "Bandit King" 12 9 7 150 "King's Roar").
Proof. unfold hp_ok. cbn. lia. Qed.

Lemma hp_ok_arch_lich :
  hp_ok (Character_init "Arch-Lich, Final Boss" 10 15 18 200 "Arcane Drain").
Proof. unfold hp_ok. cbn. lia. Qed.

(** [get_item_on] changes the inventory only. *)
Lemma get_item_on_fields (item : item_ref) (c : Character) :
  name (get_item_on item c) = name c
  /\ max_hp (get_item_on item c) = max_hp c
  /\ current_hp (get_item_on item c) = current_hp c
  /\ strength (get_item_on item c) = strength c
  /\ agility (get_item_on item c) = agility c
  /\ magic (get_item_on item c) = magic c
  /\ ability_name (get_item_on item c) = ability_name c
  /\ weapon_boost (get_item_on item c) = weapon_boost c.
Proof.
  unfold get_item_on.
  destruct (inventory c !! item_name (item_of item)); repeat split.
Qed.

(** A change of the hero that keeps name, hit points, ability and
    inventory and lowers no stat. *)
Definition grown (c c' : Character) : Prop :=
  name c' = name c
  /\ max_hp c' = max_hp c
  /\ current_hp c' = current_hp c
  /\ ability_name c' = ability_name c
  /\ inventory c' = inventory c
  /\ weapon_boost c' = weapon_boost c
  /\ strength c <= strength c'
  /\ agility c <= agility c'
  /\ magic c <= magic c'.

Lemma grown_refl (c : Character) : grown c c.
Proof. unfold grown. split_and!; reflexivity. Qed.

Lemma since_grown (g0 g g' : game) :
  since g0 g ->
  grown (hero g) (hero g') ->
  hero_class g' = hero_class g ->
  since g0 g'.
Proof.
  unfold since, grown, hp_ok. intros H Hgrown Hc. destruct_and?.
  split_and!; try congruence; lia.
Qed.

(** The reward of the first stage: at most one stat goes up by one. *)
Lemma reward_ends (choice : string) (g : game) :
  ends
    (if String.eqb choice "A" then
       stat_boost <-- random_choice "" ["strength"; "agility"; "magic"] ;;
       if String.eqb stat_boost "strength" then
         on_hero (fun c => set_strength (strength c + 1) c)
       else if String.eqb stat_boost "agility" then
         on_hero (fun c => set_agility (agility c + 1) c)
       else if String.eqb stat_boost "magic" then
         on_hero (fun c => set_magic (magic c + 1) c)
       else gret tt
     else gret tt)
    (fun _ g' =>
       grown (hero g) (hero g')
       /\ hero_class g' = hero_class g
       /\ stage g' = stage g
       /\ strength (hero g') + agility (hero g') + magic (hero g')
          <= strength (hero g) + agility (hero g) + magic (hero g) + 1)
    (fun _ _ => False) g.
Proof.
  destruct (String.eqb choice "A").
  - apply ends_bind, ends_random_choice. intros stat_boost n.
    destruct (String.eqb stat_boost "strength");
      [| destruct (String.eqb stat_boost "agility");
         [| destruct (String.eqb stat_boost "magic")]];
      unfold ends, on_hero, gret, grown, set_agility; game_fields; fields;
      split_and!; try reflexivity; lia.
  - unfold ends, gret, grown. split_and!; try reflexivity; lia.
Qed.

Lemma stage_1_ends (g0 g : game) :
  since g0 g ->
  ends stage_1
    (fun b g' =>
       since g0 g'
       /\ if b
          then stage g' = 2
               /\ 0 < current_hp (hero g')
               /\ is_Some (inventory (hero g') !! "Health Potion")
          else current_hp (hero g') = 0 /\ stage g' = stage g)
    (fun _ _ => False) g.
Proof.
  intros Hg. unfold stage_1. apply ends_bind.
  apply (ends_fight _ g0); [exact Hg | exact hp_ok_minor_bandit |].
  intros [|] g1 H1 Hst Hv Hsub Hw; cbn [negb];
    [| apply ends_ret; auto].
  apply ends_bind, ends_on_hero.
  apply ends_bind, ends_handle_choice. intros choice rest Hkey.
  pose proof (get_item_on_fields HEALTH_POTION (hero g1))
    as (En & Em & Eh & Es & Ea & Emg & Eab & Ew).
  pose proof (get_item_on_held HEALTH_POTION (hero g1)) as Hheld.
  apply ends_bind.
  eapply ends_mono; [apply reward_ends | | auto].
  intros [] g2 ((Gn & Gm & Gh & Gab & Gi & Gw & Gs & Ga & Gmg) & Hc & _ & _).
  game_fields.
  apply ends_bind. unfold ends at 1. apply ends_ret. game_fields.
  split; [| split_and!; [reflexivity | lia | rewrite Gi; exact Hheld]].
  unfold since, hp_ok in *. game_fields. destruct_and?.
  split_and!; try congruence; lia.
Qed.

(** What the second stage hands out besides the scroll and the potion. *)
Definition class_loot (k : player_class) : option item_ref :=
  match k with
  | WarriorClass | RogueClass => Some ELVEN_BLADE
  | MageClass => Some ARCANE_FOCUS
  | CharacterClass => None
  end.

Lemma get_item_on_absent (item r : item_ref) (c : Character) :
  item <> r ->
  inventory c !! item_name (item_of r) = None ->
  inventory (get_item_on item c) !! item_name (item_of r) = None.
Proof.
  intros Hne Hnone. rewrite get_item_on_other; [exact Hnone |].
  destruct item, r; try congruence; discriminate.
Qed.

Lemma since_loot (g0 g g' : game) (item : item_ref) :
  since g0 g ->
  hero g' = get_item_on item (hero g) ->
  hero_class g' = hero_class g ->
  since g0 g'.
Proof.
  intros H Hh Hc.
  pose proof (get_item_on_fields item (hero g)) as F.
  unfold since, hp_ok in *. rewrite Hh, Hc. destruct_and?.
  split_and!; try congruence; lia.
Qed.

Lemma stage_2_ends (g0 g : game) :
  since g0 g ->
  ends stage_2
    (fun b g' =>
       since g0 g'
       /\ if b
          then stage g' = 3
               /\ 0 < current_hp (hero g')
               /\ is_Some (inventory (hero g') !! "Scroll of Protection")
               /\ is_Some (inventory (hero g') !! "Health Potion")
               /\ (forall r : item_ref,
                     class_loot (hero_class g) <> Some r ->
                     r = ELVEN_BLADE \/ r = ARCANE_FOCUS ->
                     inventory (hero g) !! item_name (item_of r) = None ->
                     inventory (hero g') !! item_name (item_of r) = None)
          else current_hp (hero g') = 0 /\ stage g' = stage g)
    (fun _ _ => False) g.
Proof.
  intros Hg. unfold stage_2. apply ends_bind.
  apply (ends_fight _ g0); [exact Hg | exact hp_ok_bandit_king |].
  intros [|] g1 H1 Hst Hv Hsub Hw; cbn [negb];
    [| apply ends_ret; auto].
  assert (Hclass : hero_class g1 = hero_class g).
  { unfold since in *. destruct_and?. congruence. }
  apply ends_bind, ends_on_hero.
  apply ends_bind, ends_on_hero. game_fields.
  apply ends_bind, ends_handle_choice. intros choice rest Hkey.
  set (looted :=
         get_item_on HEALTH_POTION
           (get_item_on SCROLL_PROTECTION (hero g1))) in *.
  assert (Hfinal : forall (h2 : Character) (gx : game),
    hero gx = h2 ->
    hero_class gx = hero_class g1 ->
    stage gx = 3 ->
    h2 = looted
    \/ (exists item, class_loot (hero_class g) = Some item
                     /\ h2 = get_item_on item looted) ->
    since g0 gx
    /\ stage gx = 3
    /\ 0 < current_hp (hero gx)
    /\ is_Some (inventory (hero gx) !! "Scroll of Protection")
    /\ is_Some (inventory (hero gx) !! "Health Potion")
    /\ (forall r : item_ref,
          class_loot (hero_class g) <> Some r ->
          r = ELVEN_BLADE \/ r = ARCANE_FOCUS ->
          inventory (hero g) !! item_name (item_of r) = None ->
          inventory (hero gx) !! item_name (item_of r) = None)).
  { intros h2 gx Hh Hc Hs Hcase.
    assert (S1 : since g0
                   (set_hero (get_item_on SCROLL_PROTECTION (hero g1)) g1))
      by (eapply since_loot; [exact H1 | reflexivity ..]).
    assert (S2 : since g0 (set_hero looted g1))
      by (eapply since_loot; [exact S1 | reflexivity ..]).
    assert (L1 : is_Some (inventory looted !! "Scroll of Protection"))
      by (apply get_item_on_keeps, get_item_on_held).
    assert (L2 : is_Some (inventory looted !! "Health Potion"))
      by apply get_item_on_held.
    assert (L3 : current_hp looted = current_hp (hero g1))
      by (subst looted; rewrite !get_item_on_hp; reflexivity).
    assert (L4 : forall r : item_ref,
              r = ELVEN_BLADE \/ r = ARCANE_FOCUS ->
              inventory (hero g) !! item_name (item_of r) = None ->
              inventory looted !! item_name (item_of r) = None).
    { intros r Hr Hnone. subst looted.
      apply get_item_on_absent; [destruct Hr; subst; discriminate |].
      apply get_item_on_absent; [destruct Hr; subst; discriminate |].
      eapply lookup_weaken_None; [exact Hnone | exact Hsub]. }
    destruct Hcase as [-> | (item & Hitem & ->)].
    - split; [eapply since_grown;
              [exact S2 | rewrite Hh; apply grown_refl | exact Hc] |].
      rewrite Hh. split_and!; auto. lia.
    - split; [eapply since_loot; [exact S2 | exact Hh | exact Hc] |].
      rewrite Hh. split_and!; auto.
      + rewrite get_item_on_hp. lia.
      + apply get_item_on_keeps, L1.
      + apply get_item_on_keeps, L2.
      + intros r Hr1 Hr2 Hnone.
        apply get_item_on_absent; [congruence | auto]. }
  apply ends_bind.
  destruct (String.eqb choice "A").
  - unfold ends at 1. game_fields. rewrite Hclass.
    destruct (hero_class g) eqn:K;
      cbn [_get_item on_hero gret]; game_fields;
      apply ends_bind; unfold ends at 1; apply ends_ret;
      (eapply Hfinal; [reflexivity | reflexivity | reflexivity |]);
      first [ right; eexists; split; reflexivity | left; reflexivity ].
  - apply ends_ret. apply ends_bind. unfold ends at 1. apply ends_ret.
    eapply Hfinal; [reflexivity | reflexivity | reflexivity |].
    left. reflexivity.
Qed.

(** How the third stage can end for a hero who enters it alive: with an
    ending, or in a loss. *)
Definition ending (g : game) (n : Z) (g' : game) : Prop :=
  stage g' = stage g
  /\ 0 < current_hp (hero g')
  /\ (n = 1
      \/ (n = 2 /\ hero g' = hero g
          /\ (15 <= magic (hero g) \/ weapon_boost (hero g) = 5))
      \/ (n = 3 /\ hero g' = hero g /\ below_half (hero g) = true)).

Definition loss (g g' : game) : Prop :=
  stage g' = stage g
  /\ (current_hp (hero g') = 0
      \/ (hero g' = hero g
          /\ ((magic (hero g) < 15 /\ weapon_boost (hero g) <> 5)
              \/ below_half (hero g) = false))).

Lemma stage_3_ends (g0 g : game) :
  since g0 g ->
  0 < current_hp (hero g) ->
  ends stage_3
    (fun b g' => b = false /\ since g0 g' /\ loss g g')
    (fun n g' => since g0 g' /\ ending g n g') g.
Proof.
  intros Hg Hhp. unfold stage_3.
  apply ends_bind, ends_handle_choice. intros choice rest Hkey.
  assert (Hrest : since g0 (set_lines rest g)) by exact Hg.
  destruct (String.eqb choice "A") eqn:EA.
  { apply ends_bind.
    apply (ends_fight _ g0); [exact Hrest | exact hp_ok_arch_lich |].
    intros [|] g1 H1 Hst Hv Hsub Hw.
    - apply ends_bind, ends_end_game.
      split; [exact H1 |]. unfold ending. auto.
    - apply ends_ret. split; [reflexivity |]. split; [exact H1 |].
      unfold loss. auto. }
  destruct (String.eqb choice "B") eqn:EB.
  { apply ends_bind, ends_the_hero. game_fields.
    destruct ((15 <=? magic (hero g)) || (weapon_boost (hero g) =? 5))
      eqn:Check.
    - apply ends_bind, ends_end_game.
      split; [exact Hrest |]. unfold ending. game_fields.
      split_and!; try reflexivity; try lia.
      right. left. split_and!; try reflexivity.
      apply orb_true_iff in Check. destruct Check as [C | C];
        [left; apply Z.leb_le, C | right; apply Z.eqb_eq, C].
    - apply ends_ret. split; [reflexivity |]. split; [exact Hrest |].
      unfold loss. game_fields. split; [reflexivity |]. right.
      split; [reflexivity |]. left.
      apply orb_false_iff in Check. destruct Check as [C1 C2].
      apply Z.leb_gt in C1. apply Z.eqb_neq in C2. auto. }
  destruct (String.eqb choice "C") eqn:EC.
  { apply ends_bind, ends_the_hero. game_fields.
    destruct (below_half (hero g)) eqn:Half.
    - apply ends_bind, ends_end_game.
      split; [exact Hrest |]. unfold ending. game_fields.
      split_and!; try reflexivity; try lia. auto.
    - apply ends_ret. split; [reflexivity |]. split; [exact Hrest |].
      unfold loss. game_fields. auto. }
  exfalso. apply String.eqb_neq in EA, EB, EC.
  rewrite lookup_insert_ne in Hkey by congruence.
  rewrite lookup_insert_ne in Hkey by congruence.
  rewrite lookup_singleton_ne in Hkey by congruence.
  destruct Hkey as [x Hx]. discriminate Hx.
Qed.

(** ** The whole game *)

(** The two ways [game_loop] is left: a stage failed and the loop was broken
    out of, or an ending was reached. *)
Definition lost (g' : game) : Prop :=
  current_hp (hero g') = 0
  \/ (stage g' = 3
      /\ 0 < current_hp (hero g')
      /\ ((magic (hero g') < 15 /\ weapon_boost (hero g') <> 5)
          \/ below_half (hero g') = false)).

Definition won (n : Z) (g' : game) : Prop :=
  stage g' = 3
  /\ 0 < current_hp (hero g')
  /\ (n = 1
      \/ (n = 2 /\ (15 <= magic (hero g') \/ weapon_boost (hero g') = 5))
      \/ (n = 3 /\ below_half (hero g') = true)).

Lemma game_loop_from_S (fuel : nat) (g : game) :
  game_loop_from (S fuel) g
  = if stage g <=? 3 then
      gbind
        (if stage g =? 1 then stage_1
         else if stage g =? 2 then stage_2
         else if stage g =? 3 then stage_3
         else gret false)
        (fun success =>
           if negb success then gret tt else game_loop_from fuel) g
    else gret tt g.
Proof. reflexivity. Qed.

Lemma game_loop_from_ends (g0 : game) (fuel : nat) (g : game) :
  since g0 g ->
  1 <= stage g <= 3 ->
  4 - stage g <= Z.of_nat fuel ->
  (1 < stage g -> 0 < current_hp (hero g)) ->
  ends (game_loop_from fuel)
    (fun _ g' => since g0 g' /\ lost g')
    (fun n g' => since g0 g' /\ won n g') g.
Proof.
  revert g. induction fuel as [| fuel IH]; intros g Hg Hst Hfuel Halive;
    [lia |].
  assert (Hle : (stage g <=? 3) = true) by (apply Z.leb_le; lia).
  cut (ends
         (gbind
            (if stage g =? 1 then stage_1
             else if stage g =? 2 then stage_2
             else if stage g =? 3 then stage_3
             else gret false)
            (fun success =>
               if negb success then gret tt else game_loop_from fuel))
         (fun _ g' => since g0 g' /\ lost g')
         (fun n g' => since g0 g' /\ won n g') g).
  { unfold ends. rewrite game_loop_from_S, Hle. auto. }
  apply ends_bind.
  destruct (stage g =? 1) eqn:E1; [| destruct (stage g =? 2) eqn:E2].
  - apply Z.eqb_eq in E1.
    eapply ends_mono; [apply (stage_1_ends g0 g Hg) | | intros ? ? []].
    intros [|] g1 [H1 Hb]; cbn [negb].
    + destruct Hb as (S2 & Hhp & _). apply IH; try assumption; lia.
    + apply ends_ret. split; [exact H1 |]. left. apply Hb.
  - apply Z.eqb_eq in E2.
    eapply ends_mono; [apply (stage_2_ends g0 g Hg) | | intros ? ? []].
    intros [|] g1 [H1 Hb]; cbn [negb].
    + destruct Hb as (S3 & Hhp & _). apply IH; try assumption; lia.
    + apply ends_ret. split; [exact H1 |]. left. apply Hb.
  - apply Z.eqb_neq in E1, E2.
    assert (E3 : stage g = 3) by lia. rewrite E3. cbn [Z.eqb Pos.eqb].
    eapply ends_mono;
      [apply (stage_3_ends g0 g Hg); apply Halive; lia | |].
    + intros b g1 (-> & H1 & Hs & Hloss). cbn [negb]. apply ends_ret.
      split; [exact H1 |]. unfold lost.
      destruct Hloss as [Hdead | [Hsame Hwhy]]; [left; exact Hdead |].
      right. rewrite Hs, Hsame. split_and!; auto. apply Halive. lia.
    + intros n g1 (H1 & Hs & Hhp & Hn). split; [exact H1 |].
      unfold won. rewrite Hs. split_and!; auto.
      destruct Hn as [N | [(N & Hsame & Hc) | (N & Hsame & Hc)]];
        [auto | rewrite Hsame; auto .. ].
Qed.

Lemma since_refl (g : game) : hp_ok (hero g) -> since g g.
Proof. intros H. unfold since. split_and!; try reflexivity; exact H. Qed.

(** X21: The first stage never exits the game.  It returns [False] only with the
    hero at 0 hit points and the stage unchanged; it returns [True] with the
    stage at 2, the hero alive and a Health Potion in the inventory.  Either
    way the hero's hit points are within bounds, name, maximum hit points,
    ability and class are unchanged, and no stat has gone down. *)
Theorem stage_1_outcome (g : game) :
  hp_ok (hero g) ->
  ends stage_1
    (fun b g' =>
       since g g'
       /\ if b
          then stage g' = 2
               /\ 0 < current_hp (hero g')
               /\ is_Some (inventory (hero g') !! "Health Potion")
          else current_hp (hero g') = 0 /\ stage g' = stage g)
    (fun _ _ => False) g.
Proof. intros H. apply stage_1_ends, since_refl, H. Qed.

(** A Mage called Merlin, as [player_setup] makes it, plays: Arcane Bolt
    at the bandit (die 6), no help for the creature; Arcane Bolt at the
    Bandit King (die 6, critical hit), into the hidden passage; then words
    for the Arch-Lich. *)
Definition merlin : game :=
  mkGame (set_inventory starting_inventory (Mage "Merlin")) MageClass 1
    (fun n => match n with
              | 1%nat | 5%nat => 5
              | 6%nat => 0
              | _ => 99
              end)
    0 ["magic"; "B"; "magic"; "A"; "B"].

Lemma hp_ok_merlin : hp_ok (hero merlin).
Proof. unfold hp_ok. cbn. lia. Qed.

Lemma stage_1_outcome_witness :
  exists g' : game,
    stage_1 merlin = Returned true g'
    /\ since merlin g'
    /\ stage g' = 2
    /\ 0 < current_hp (hero g').
Proof.
  pose proof (stage_1_outcome merlin hp_ok_merlin) as E. unfold ends in E.
  destruct (stage_1 merlin) as [[|] g' | g' | n g' |] eqn:R.
  - exists g'. split; [reflexivity |].
    destruct E as (Hs & Hst & Hhp & _). auto.
  - vm_compute in R. discriminate R.
  - vm_compute in R. discriminate R.
  - contradiction.
  - contradiction.
Defined.

(** X22: The second stage, likewise: [False] only with the hero at 0 hit points;
    [True] with the stage at 3, the hero alive, and a Scroll of Protection
    and a Health Potion in the inventory.  The weapon of the other classes is
    never found: a Mage leaves without an Elven Blade, a Warrior or a Rogue
    without an Arcane Focus, and a player of no class without either, unless
    they came with one. *)
Theorem stage_2_outcome (g : game) :
  hp_ok (hero g) ->
  ends stage_2
    (fun b g' =>
       since g g'
       /\ if b
          then stage g' = 3
               /\ 0 < current_hp (hero g')
               /\ is_Some (inventory (hero g') !! "Scroll of Protection")
               /\ is_Some (inventory (hero g') !! "Health Potion")
               /\ (forall r : item_ref,
                     class_loot (hero_class g) <> Some r ->
                     r = ELVEN_BLADE \/ r = ARCANE_FOCUS ->
                     inventory (hero g) !! item_name (item_of r) = None ->
                     inventory (hero g') !! item_name (item_of r) = None)
          else current_hp (hero g') = 0 /\ stage g' = stage g)
    (fun _ _ => False) g.
Proof. intros H. apply stage_2_ends, since_refl, H. Qed.

(** Merlin at the second stage. *)
Definition merlin_2 : game :=
  mkGame (set_inventory starting_inventory (Mage "Merlin")) MageClass 2
    (fun n => match n with 1%nat => 5 | 2%nat => 0 | _ => 99 end)
    0 ["magic"; "A"].

Lemma stage_2_outcome_witness :
  exists g' : game,
    stage_2 merlin_2 = Returned true g'
    /\ stage g' = 3
    /\ inventory (hero g') !! "Arcane Focus" = Some ARCANE_FOCUS
    /\ inventory (hero g') !! "Elven Blade" = None.
Proof.
  pose proof (stage_2_outcome merlin_2 hp_ok_merlin) as E. unfold ends in E.
  destruct (stage_2 merlin_2) as [[|] g' | g' | n g' |] eqn:R.
  - exists g'. split; [reflexivity |].
    destruct E as (Hs & Hst & Hhp & _ & _ & Hloot).
    split; [exact Hst |]. split.
    + vm_compute in R. injection R as <-. reflexivity.
    + apply (Hloot ELVEN_BLADE); [discriminate | left | ]; reflexivity.
  - vm_compute in R. discriminate R.
  - vm_compute in R. discriminate R.
  - contradiction.
  - contradiction.
Defined.

(** X23: The third stage never returns [True]: a hero who enters it alive leaves
    it through an ending or with [False].  Ending 1 follows a won fight;
    ending 2 is reached without a fight and only by a hero with magic 15 or
    more or a weapon boost of 5, ending 3 only by one below half of the
    maximum hit points; [False] is returned with the hero at 0 hit points
    after the fight, or untouched after a failed check. *)
Theorem stage_3_outcome (g : game) :
  hp_ok (hero g) ->
  0 < current_hp (hero g) ->
  ends stage_3
    (fun b g' => b = false /\ since g g' /\ loss g g')
    (fun n g' => since g g' /\ ending g n g') g.
Proof. intros H Hhp. apply stage_3_ends; [apply since_refl, H | exact Hhp]. Qed.

(** A Warrior who has equipped the Elven Blade talks to the Arch-Lich. *)
Definition silver_tongue : game :=
  mkGame (use_elven_blade (Warrior "Hero")) WarriorClass 3 (fun _ => 0) 0
    ["X"; "B"].

Lemma stage_3_outcome_witness :
  exists g' : game,
    stage_3 silver_tongue = SystemExit 2 g'
    /\ ending silver_tongue 2 g'.
Proof.
  pose proof (stage_3_outcome silver_tongue) as E. unfold ends in E.
  destruct (stage_3 silver_tongue) as [b g' | g' | n g' |] eqn:R.
  - vm_compute in R. discriminate R.
  - vm_compute in R. discriminate R.
  - exists g'.
    assert (Hn : n = 2) by (vm_compute in R; congruence). subst n.
    split; [reflexivity |]. apply E.
    + unfold hp_ok. cbn. lia.
    + reflexivity.
  - vm_compute in R. discriminate R.
Defined.

(** X24: [game_loop] always comes to an end: no stage is entered twice.  When it
    exits through an ending, the hero is alive at stage 3, so that the first
    two encounters were won, and the ending is 1, 2 or 3 under the checks of
    the third stage.  When it returns, a stage has failed: either the hero
    is at 0 hit points, or the hero is alive at stage 3 and has failed the
    check of magic and weapon boost or the check of the hit points; a hero
    who is alive at stage 1 or 2 never makes it return. *)
Theorem game_loop_ends (g : game) :
  hp_ok (hero g) ->
  ends game_loop
    (fun _ g' => since g g' /\ lost g')
    (fun n g' => since g g' /\ won n g') g.
Proof.
  intros H. unfold game_loop.
  change (ends (game_loop_from 4)
            (fun _ g' => since g g' /\ lost g')
            (fun n g' => since g g' /\ won n g') (set_stage 1 g)).
  apply game_loop_from_ends; game_fields; try lia.
  apply (since_refl g H).
Qed.

Lemma game_loop_ends_witness :
  exists g' : game,
    game_loop merlin = SystemExit 2 g'
    /\ since merlin g'
    /\ won 2 g'.
Proof.
  pose proof (game_loop_ends merlin hp_ok_merlin) as E. unfold ends in E.
  destruct (game_loop merlin) as [b g' | g' | n g' |] eqn:R.
  - vm_compute in R. discriminate R.
  - vm_compute in R. discriminate R.
  - exists g'.
    assert (Hn : n = 2) by (vm_compute in R; congruence). subst n.
    split; [reflexivity | exact E].
  - contradiction.
Defined.

(** X25: A hero who starts with magic 15 or more (every Mage does) cannot fail
    the bargain with the Arch-Lich: when [game_loop] returns for such a
    hero, the hero is at 0 hit points or was turned down for having half of
    the maximum hit points or more. *)
Theorem bargain_never_fails (g : game) :
  hp_ok (hero g) ->
  15 <= magic (hero g) ->
  ends game_loop
    (fun _ g' =>
       current_hp (hero g') = 0
       \/ (0 < current_hp (hero g') /\ below_half (hero g') = false))
    (fun n g' => 1 <= n <= 3) g.
Proof.
  intros H Hmagic.
  assert (E : ends (game_loop_from 4)
                (fun _ g' => since g g' /\ lost g')
                (fun n g' => since g g' /\ won n g') (set_stage 1 g)).
  { apply game_loop_from_ends; game_fields; try lia.
    apply (since_refl g H). }
  unfold ends, game_loop in *.
  destruct (game_loop_from 4 (set_stage 1 g)) as [b g' | g' | n g' |];
    [| exact I | | exact E].
  - destruct E as [Hs [Hdead | (_ & Hhp & [[Hlow _] | Hhalf])]];
      [left; exact Hdead | | right; auto].
    unfold since in Hs. destruct_and?. lia.
  - destruct E as [_ (_ & _ & [-> | [[-> _] | [-> _]]])]; lia.
Qed.

(** Merlin, this time asking for the dark gift at full health. *)
Definition merlin_tempted : game :=
  set_lines ["magic"; "B"; "magic"; "A"; "C"] merlin.

Lemma bargain_never_fails_witness :
  exists g' : game,
    game_loop merlin_tempted = Returned tt g'
    /\ 0 < current_hp (hero g')
    /\ below_half (hero g') = false.
Proof.
  pose proof (bargain_never_fails merlin_tempted hp_ok_merlin) as E.
  unfold ends in E.
  destruct (game_loop merlin_tempted) as [[] g' | g' | n g' |] eqn:R.
  - exists g'. split; [reflexivity |].
    destruct E as [Hdead | E]; [vm_compute; discriminate | | exact E].
    vm_compute in R. injection R as <-. vm_compute in Hdead.
    discriminate Hdead.
  - vm_compute in R. discriminate R.
  - vm_compute in R. discriminate R.
  - vm_compute in R. discriminate R.
Defined.

(** ** Two more facts about the damage *)

(** X26: The damage resolution with a power stat that is not negative, against a
    defender whose buff is not negative, returns 0 (a dodge) or something
    between 1 and twelve times the power stat (die 6, critical hit), and
    always draws three rolls, dodge or not. *)
Theorem damage_range (a d : who) (s : Z) (m : bool) (w : world) :
  0 <= s ->
  0 <= temp_defense_buff (get d w) ->
  exists (r : Z) (w' : world),
    _calculate_damage a d s m w = Ok r w'
    /\ 0 <= r <= Z.max 1 (12 * s)
    /\ rpos w' = (3 + rpos w)%nat
    /\ inputs w' = inputs w.
Proof.
  intros Hs Hbuff. rewrite _calculate_damage_run.
  destruct (dodged (get d w) w).
  - exists 0, (drawn 3 w). split_and!; try reflexivity; lia.
  - eexists _, _. split; [reflexivity |].
    assert (Hbase : base_damage (get a w) s w <= 12 * s).
    { unfold base_damage.
      pose proof (roll_range 1 6 0 w ltac:(lia)).
      destruct (roll_le _ _); nia. }
    rewrite take_damage_fst. unfold mitigated.
    assert (Hhalf : base_damage (get a w) s w / 2
                    <= Z.max 0 (base_damage (get a w) s w)).
    { destruct (Z.le_gt_cases 0 (base_damage (get a w) s w)).
      - pose proof (Z.div_le_upper_bound (base_damage (get a w) s w) 2
                      (base_damage (get a w) s w) ltac:(lia) ltac:(lia)).
        lia.
      - pose proof (Z.div_lt_upper_bound (base_damage (get a w) s w) 2 0
                      ltac:(lia) ltac:(lia)). lia. }
    split_and!; [| | destruct d; reflexivity | destruct d; reflexivity];
      destruct (is_defending (get d w)); lia.
Qed.

Lemma damage_range_witness :
  exists (r : Z) (w' : world),
    _calculate_damage Player Enemy 14 false one_blow = Ok r w'
    /\ 0 <= r <= Z.max 1 (12 * 14)
    /\ rpos w' = 3%nat
    /\ inputs w' = ["attack"].
Proof.
  apply (damage_range Player Enemy 14 false one_blow).
  - lia.
  - vm_compute. discriminate.
Defined.

Lemma roar_run (w : world) :
  name (enemy w) = "Bandit King" ->
  _enemy_special_move w
  = (_calculate_damage Enemy Player (strength (enemy w)) false ;;; ret tt)
      (with_buff 5 w).
Proof.
  intros Hname. unfold _enemy_special_move. unfold bind at 1.
  unfold read at 1. cbn [get]. rewrite Hname. reflexivity.
Qed.

(** X27: The King's Roar writes over whatever buff the player had: a player who
    has just read a Scroll of Protection meets the attack that follows the
    roar with a buff of 5, not 15. *)
Theorem kings_roar_overwrites_buff (w : world) (b : Z) :
  name (enemy w) = "Bandit King" ->
  _enemy_special_move (with_buff b w) = _enemy_special_move w.
Proof.
  intros Hname. rewrite (roar_run w Hname).
  rewrite (roar_run (with_buff b w) Hname). reflexivity.
Qed.

Lemma kings_roar_overwrites_buff_witness :
  _enemy_special_move (with_buff 15 roaring) = _enemy_special_move roaring.
Proof. apply (kings_roar_overwrites_buff roaring 15). reflexivity. Defined.

(** ** The two checks of the third stage *)





